(** * SeasonRecap: the subtitle codec, the clip timeline remapper, the
      speech-synthesis text splitters and the job progress metric

    A shallow embedding of
    - [backend/src/subtitles/subtitleUtils.ts]  (createSeasonTimeline,
      generateSeasonTextForLLM, formatTimeMarker, remapSubtitlesToClips,
      generateNarrativeSubtitles, findOverlappingSubtitles,
      calculateTotalDuration),
    - [backend/src/subtitles/srtParser.ts]      (srtTimeToSeconds,
      secondsToSrtTime, parseSrtContent, parseSrtFile, generateSrtContent,
      extractEpisodeIdFromFilename),
    - the Azure speech synthesizer             (splitTextIntoChunks,
      getLanguageFromVoice, escapeXml),
    - [backend/src/tts/openaiSpeech.ts]         (splitTextIntoChunks),
    - the job types                            (calculateOverallProgress),
    - the summary pipeline                     (the computation of
      generateNarrativeSrt, without the file system).

    Modelling conventions.
    - A JavaScript [number] holding a time or a percentage is an exact
      rational ([Q]); rounding of IEEE doubles is not modelled.  Equality of
      times is [Qeq] (==) unless the two sides are computed by the same
      operations, where it is Leibniz equality.  Where the source can produce
      [NaN] (parseInt on a string without digits) the type [number] adds it.
    - A counter ([index]) is an integer ([Z]).
    - A JavaScript string is a [string]; a character is a UTF-16 code unit
      below 256.
    - [Map<string, V>] is [gmap string V]; arrays are lists; [push] appends.
    - A loop with mutable locals is a left fold over an explicit state
      record. *)

From Stdlib Require Import Ascii String QArith Qround Qabs Qminmax Lqa Sorting.Sorted.
From stdpp Require Import gmap strings list sorting.

Local Open Scope Z_scope.

(** Comparison of rationals is decidable; used to write the selection
    predicate of the remapper as a proposition. *)
#[global] Instance Qle_decision : RelDecision Qle.
Proof.
  intros x y. destruct (Qlt_le_dec y x) as [H|H].
  - right. by apply Qlt_not_le.
  - by left.
Defined.

(** ** Data model (subtitles/types.ts, subtitleUtils.ts) *)

Module SubtitleEntry.
Record t : Type := mk {
  episodeId : string;
  index : Z;
  startTime : Q;
  endTime : Q;
  text : string;
}.
End SubtitleEntry.

Module ClipDefinition.
Record t : Type := mk {
  episodeId : string;
  videoPath : string;
  startTime : Q;
  endTime : Q;
  order : Z;
}.
End ClipDefinition.

Module RemappedSubtitle.
Record t : Type := mk {
  index : Z;
  startTime : Q;
  endTime : Q;
  text : string;
  originalEpisodeId : string;
  originalStartTime : Q;
}.
End RemappedSubtitle.

(** ** The clip timeline remapper (subtitleUtils.ts) *)

Module Remap.

(** The mutable locals of [remapSubtitlesToClips]. *)
Record state : Type := mkState {
  remapped : list RemappedSubtitle.t;
  currentOffset : Q;
  index : Z;
}.

Definition initial : state :=
  {| remapped := []; currentOffset := 0%Q; index := 1 |}.

(** [episodeSubtitles.get(clip.episodeId) ?? []] *)
Definition entriesOf (episodeSubtitles : gmap string (list SubtitleEntry.t))
    (clip : ClipDefinition.t) : list SubtitleEntry.t :=
  default [] (episodeSubtitles !! ClipDefinition.episodeId clip).

(** The predicate of [entries.filter(...)]:
    [entry.startTime >= clip.startTime && entry.endTime <= clip.endTime]. *)
Definition inClip (clip : ClipDefinition.t) (entry : SubtitleEntry.t) : bool :=
  Qle_bool (ClipDefinition.startTime clip) (SubtitleEntry.startTime entry)
  && Qle_bool (SubtitleEntry.endTime entry) (ClipDefinition.endTime clip).

Definition clipSubtitles (episodeSubtitles : gmap string (list SubtitleEntry.t))
    (clip : ClipDefinition.t) : list SubtitleEntry.t :=
  List.filter (inClip clip) (entriesOf episodeSubtitles clip).

(** Body of the inner loop: one [remapped.push({...}); index++]. *)
Definition pushSubtitle (clip : ClipDefinition.t) (st : state)
    (subtitle : SubtitleEntry.t) : state :=
  let newStartTime :=
    (currentOffset st
     + (SubtitleEntry.startTime subtitle - ClipDefinition.startTime clip))%Q in
  let newEndTime :=
    (currentOffset st
     + (SubtitleEntry.endTime subtitle - ClipDefinition.startTime clip))%Q in
  {| remapped :=
       remapped st ++
       [ {| RemappedSubtitle.index := index st;
            RemappedSubtitle.startTime := newStartTime;
            RemappedSubtitle.endTime := newEndTime;
            RemappedSubtitle.text := SubtitleEntry.text subtitle;
            RemappedSubtitle.originalEpisodeId := ClipDefinition.episodeId clip;
            RemappedSubtitle.originalStartTime := SubtitleEntry.startTime subtitle |} ];
     currentOffset := currentOffset st;
     index := index st + 1 |}.

(** Body of the outer loop, for one clip. *)
Definition processClip (episodeSubtitles : gmap string (list SubtitleEntry.t))
    (st : state) (clip : ClipDefinition.t) : state :=
  let st' := fold_left (pushSubtitle clip) (clipSubtitles episodeSubtitles clip) st in
  {| remapped := remapped st';
     currentOffset :=
       (currentOffset st'
        + (ClipDefinition.endTime clip - ClipDefinition.startTime clip))%Q;
     index := index st' |}.

(** The state when the loop over [clips] ends. *)
Definition run (clips : list ClipDefinition.t)
    (episodeSubtitles : gmap string (list SubtitleEntry.t)) : state :=
  fold_left (processClip episodeSubtitles) clips initial.

End Remap.

Definition remapSubtitlesToClips (clips : list ClipDefinition.t)
    (episodeSubtitles : gmap string (list SubtitleEntry.t))
    : list RemappedSubtitle.t :=
  Remap.remapped (Remap.run clips episodeSubtitles).

(** [clips.reduce((sum, clip) => sum + (clip.endTime - clip.startTime), 0)] *)
Definition calculateTotalDuration (clips : list ClipDefinition.t) : Q :=
  fold_left
    (fun sum clip =>
       (sum + (ClipDefinition.endTime clip - ClipDefinition.startTime clip))%Q)
    clips 0%Q.


(** What one pass of the inner loop appends, in closed form: the entries
    [subs] selected for [clip], remapped at output offset [offset] and numbered
    from [idx]. *)
Fixpoint clipBlock (clip : ClipDefinition.t) (offset : Q) (idx : Z)
    (subs : list SubtitleEntry.t) : list RemappedSubtitle.t :=
  match subs with
  | [] => []
  | s :: rest =>
      RemappedSubtitle.mk idx
        (offset + (SubtitleEntry.startTime s - ClipDefinition.startTime clip))%Q
        (offset + (SubtitleEntry.endTime s - ClipDefinition.startTime clip))%Q
        (SubtitleEntry.text s) (ClipDefinition.episodeId clip)
        (SubtitleEntry.startTime s)
      :: clipBlock clip offset (idx + 1) rest
  end.

(** The entries that processing [clip] appends to [remapped] when the clips
    [pre] have been processed before it. *)
Definition emittedFor (episodeSubtitles : gmap string (list SubtitleEntry.t))
    (pre : list ClipDefinition.t) (clip : ClipDefinition.t)
    : list RemappedSubtitle.t :=
  let st := Remap.run pre episodeSubtitles in
  drop (length (Remap.remapped st))
       (Remap.remapped (Remap.processClip episodeSubtitles st clip)).

(** The hypotheses under which the output is ordered: the data-model
    invariant [startTime <= endTime] of clips and of entries, and entries
    listed by ascending start time within each episode. *)
Definition wellFormedClips (clips : list ClipDefinition.t) : Prop :=
  Forall (fun clip =>
            (ClipDefinition.startTime clip <= ClipDefinition.endTime clip)%Q)
         clips.

Definition chronologicalSubtitles
    (episodeSubtitles : gmap string (list SubtitleEntry.t)) : Prop :=
  forall id entries,
    episodeSubtitles !! id = Some entries ->
    Forall (fun e => (SubtitleEntry.startTime e <= SubtitleEntry.endTime e)%Q)
           entries
    /\ StronglySorted
         (fun a b => (SubtitleEntry.startTime a <= SubtitleEntry.startTime b)%Q)
         entries.

(** ** JavaScript primitives used by the subtitle codec *)

Module JS.

(** A [number] that may be [NaN]. *)
Inductive number : Type :=
| NaN
| Num (q : Q).

Definition lift2 (f : Q -> Q -> Q) (x y : number) : number :=
  match x, y with
  | Num a, Num b => Num (f a b)
  | _, _ => NaN
  end.

Definition add := lift2 Qplus.
Definition mul := lift2 Qmult.
Definition div := lift2 Qdiv.

Definition isDigit (c : ascii) : bool :=
  ((48 <=? N_of_ascii c) && (N_of_ascii c <=? 57))%N.

Definition digitValue (c : ascii) : Z := Z.of_N (N_of_ascii c) - 48.

(** White space and line terminators among the code units below 256:
    TAB, LF, VT, FF, CR, SP and NBSP. *)
Definition isWhiteSpace (c : ascii) : bool :=
  let n := N_of_ascii c in
  ((9 <=? n) && (n <=? 13) || (n =? 32) || (n =? 160))%N.

Fixpoint skipWhiteSpace (s : string) : string :=
  match s with
  | String c rest => if isWhiteSpace c then skipWhiteSpace rest else s
  | EmptyString => s
  end.

(** The value of the longest prefix of decimal digits of [s], continuing
    from the digits already read ([acc]). *)
Fixpoint digitsValue (acc : Z) (s : string) : Z :=
  match s with
  | String c rest =>
      if isDigit c then digitsValue (10 * acc + digitValue c) rest else acc
  | EmptyString => acc
  end.

Definition startsWithDigit (s : string) : bool :=
  match s with
  | String c _ => isDigit c
  | EmptyString => false
  end.

(** [parseInt(s, 10)]: leading white space, an optional sign, then the
    longest run of digits; [NaN] when there is no digit. *)
Definition parseInt (s : string) : number :=
  let trimmed := skipWhiteSpace s in
  let '(sign, body) :=
    match trimmed with
    | String "-" rest => (-1, rest)
    | String "+" rest => (1, rest)
    | _ => (1, trimmed)
    end in
  if startsWithDigit body
  then Num (inject_Z (sign * digitsValue 0 body))
  else NaN.

Definition digitChar (d : Z) : ascii := ascii_of_N (Z.to_N d + 48).

Fixpoint digitsOf (fuel : nat) (n : Z) (acc : string) : string :=
  match fuel with
  | O => acc
  | S fuel' =>
      let acc' := String (digitChar (n mod 10)) acc in
      if n / 10 =? 0 then acc' else digitsOf fuel' (n / 10) acc'
  end.

(** [n.toString()] for an integer-valued number (below 1e21, where
    JavaScript prints all the digits). *)
Definition toString (n : Z) : string :=
  if n <? 0
  then String "-" (digitsOf (S (Z.to_nat (Z.log2 (- n)))) (- n) EmptyString)
  else digitsOf (S (Z.to_nat (Z.log2 n))) n EmptyString.

Fixpoint replicate (n : nat) (c : ascii) : string :=
  match n with
  | O => EmptyString
  | S n' => String c (replicate n' c)
  end.

(** [s.padStart(targetLength, fill)] and [s.padEnd(targetLength, fill)] for
    a one-character fill string. *)
Definition padStart (targetLength : nat) (fill : ascii) (s : string) : string :=
  replicate (targetLength - String.length s) fill +:+ s.

Definition padEnd (targetLength : nat) (fill : ascii) (s : string) : string :=
  s +:+ replicate (targetLength - String.length s) fill.

(** [s.replace(pattern, replacement)] for one-character strings: only the
    first occurrence is replaced. *)
Fixpoint replaceFirst (pattern replacement : ascii) (s : string) : string :=
  match s with
  | EmptyString => EmptyString
  | String c rest =>
      if Ascii.eqb c pattern then String replacement rest
      else String c (replaceFirst pattern replacement rest)
  end.

(** [s.split(separator)] for a one-character separator. *)
Fixpoint split (separator : ascii) (s : string) : list string :=
  match s with
  | EmptyString => [EmptyString]
  | String c rest =>
      if Ascii.eqb c separator then EmptyString :: split separator rest
      else match split separator rest with
           | first :: others => String c first :: others
           | [] => [String c EmptyString]
           end
  end.

(** [Math.floor], [Math.round] (halves round up) and the remainder [%]
    (the sign of the dividend, truncated quotient). *)
Definition floor (x : Q) : Z := Qfloor x.

Definition round (x : Q) : Z := Qfloor (x + (1 # 2))%Q.

Definition truncate (x : Q) : Z := Z.quot (Qnum x) (Zpos (Qden x)).

Definition rem (x y : Q) : Q := (x - y * inject_Z (truncate (x / y)))%Q.

End JS.

(** ** The subtitle codec (srtParser.ts) *)

(** A call either throws an [Error] with a message or returns a number. *)
Inductive outcome : Type :=
| Throw (message : string)
| Return (value : JS.number).

Definition srtTimeToSeconds (timestamp : string) : outcome :=
  let normalized := JS.replaceFirst "," "." timestamp in
  let parts := JS.split ":" normalized in
  match parts with
  | [part0; part1; part2] =>
      let hours := JS.parseInt part0 in
      let minutes := JS.parseInt part1 in
      let secondsParts := JS.split "." part2 in
      let seconds := JS.parseInt (default "0" (secondsParts !! 0%nat)) in
      let milliseconds :=
        JS.parseInt (JS.padEnd 3 "0" (default "0" (secondsParts !! 1%nat))) in
      Return
        (JS.add
           (JS.add
              (JS.add (JS.mul hours (JS.Num 3600)) (JS.mul minutes (JS.Num 60)))
              seconds)
           (JS.div milliseconds (JS.Num 1000)))
  | _ => Throw ("Invalid SRT timestamp format: " +:+ timestamp)
  end.

Definition secondsToSrtTime (seconds : Q) : string :=
  let hours := JS.floor (seconds / 3600)%Q in
  let minutes := JS.floor (JS.rem seconds 3600 / 60)%Q in
  let secs := JS.floor (JS.rem seconds 60) in
  let ms := JS.round (JS.rem seconds 1 * 1000)%Q in
  JS.padStart 2 "0" (JS.toString hours) +:+ ":" +:+
  JS.padStart 2 "0" (JS.toString minutes) +:+ ":" +:+
  JS.padStart 2 "0" (JS.toString secs) +:+ "," +:+
  JS.padStart 3 "0" (JS.toString ms).

(** Vocabulary for the timestamp format: the number of occurrences of a
    character, strings made of decimal digits only, and the number a digit
    string denotes. *)
Fixpoint countChar (c : ascii) (s : string) : nat :=
  match s with
  | EmptyString => O
  | String d rest => (if Ascii.eqb d c then 1 else 0) + countChar c rest
  end.

Fixpoint allDigits (s : string) : bool :=
  match s with
  | EmptyString => true
  | String c rest => JS.isDigit c && allDigits rest
  end.

Definition decimal (s : string) : Z := JS.digitsValue 0 s.

(** The timestamp pattern of the specification: two digits, ':', two digits,
    ':', two digits, then ',' or '.', then three digits; and the number of
    seconds such a string denotes, h*3600 + m*60 + s + ms/1000. *)
Definition isTimestamp (t : string) : bool :=
  match list_ascii_of_string t with
  | [h1; h2; c1; m1; m2; c2; s1; s2; sep; f1; f2; f3] =>
      JS.isDigit h1 && JS.isDigit h2 && Ascii.eqb c1 ":"
      && JS.isDigit m1 && JS.isDigit m2 && Ascii.eqb c2 ":"
      && JS.isDigit s1 && JS.isDigit s2
      && (Ascii.eqb sep "," || Ascii.eqb sep ".")
      && JS.isDigit f1 && JS.isDigit f2 && JS.isDigit f3
  | _ => false
  end.

Definition timestampValue (t : string) : Q :=
  match list_ascii_of_string t with
  | [h1; h2; c1; m1; m2; c2; s1; s2; sep; f1; f2; f3] =>
      let h := 10 * JS.digitValue h1 + JS.digitValue h2 in
      let m := 10 * JS.digitValue m1 + JS.digitValue m2 in
      let s := 10 * JS.digitValue s1 + JS.digitValue s2 in
      let ms := 100 * JS.digitValue f1 + 10 * JS.digitValue f2 + JS.digitValue f3 in
      (inject_Z h * 3600 + inject_Z m * 60 + inject_Z s + inject_Z ms / 1000)%Q
  | _ => 0%Q
  end.

(** ** Jobs and the overall progress metric (the job types module) *)

Inductive JobStatus : Type :=
| pending
| validating
| parsing
| analyzing
| generating_clips
| processing_video
| generating_srt
| generating_tts
| mixing_audio
| completed
| failed.

#[global] Instance JobStatus_eq_dec : EqDecision JobStatus.
Proof. solve_decision. Defined.

(** [SummaryMode = 'A' | 'B'] *)
Inductive SummaryMode : Type := ModeA | ModeB.

#[global] Instance SummaryMode_eq_dec : EqDecision SummaryMode.
Proof. solve_decision. Defined.

(** The fields of a job that the progress metric reads. *)
Module JobConfig.
Record t : Type := mk { mode : SummaryMode }.
End JobConfig.

Module JobProgress.
Record t : Type := mk {
  stage : JobStatus;
  stageProgress : Q;
  completedStages : list JobStatus;
}.
End JobProgress.

Module Job.
Record t : Type := mk {
  config : JobConfig.t;
  status : JobStatus;
  progress : JobProgress.t;
}.
End Job.

Definition stages : list JobStatus :=
  [ pending; validating; parsing; analyzing; generating_clips; processing_video;
    generating_srt; generating_tts; mixing_audio; completed ].

(** Mode A doesn't have TTS stages. *)
Definition relevantStages (mode : SummaryMode) : list JobStatus :=
  if decide (mode = ModeA)
  then List.filter
         (fun s => bool_decide (s <> generating_tts)
                   && bool_decide (s <> mixing_audio)) stages
  else stages.

(** [array.indexOf(x)]: the first position of [x], or -1. *)
Fixpoint indexOf (l : list JobStatus) (x : JobStatus) : Z :=
  match l with
  | [] => -1
  | y :: rest =>
      if decide (y = x) then 0
      else let i := indexOf rest x in if i =? -1 then -1 else i + 1
  end.

Definition calculateOverallProgress (job : Job.t) : Q :=
  let relevantStages := relevantStages (JobConfig.mode (Job.config job)) in
  let currentIndex := indexOf relevantStages (Job.status job) in
  if currentIndex =? -1 then 0%Q
  else if decide (Job.status job = failed)
  then JobProgress.stageProgress (Job.progress job)
  else if decide (Job.status job = completed) then 100%Q
  else
    let stageWeight :=
      (100 / inject_Z (Z.of_nat (length relevantStages) - 1))%Q in
    let baseProgress := (inject_Z currentIndex * stageWeight)%Q in
    let stageProgress :=
      (JobProgress.stageProgress (Job.progress job) / 100 * stageWeight)%Q in
    Qmin 99 (inject_Z (JS.round (baseProgress + stageProgress))).

(** The number of equal-weighted segments of the stage list. *)
Definition segments (mode : SummaryMode) : Z :=
  match mode with ModeA => 7 | ModeB => 9 end.

(** ** Regular expressions *)

Module Regex.

(** A matcher lists the ways a pattern can match a prefix of the input, in
    the order a backtracking engine tries them (greedy choices first); each
    way gives the captured value and the rest of the input. *)
Definition matcher (A : Type) : Type := string -> list (A * string).

Definition ret {A} (a : A) : matcher A := fun s => [(a, s)].

Definition bind {A B} (m : matcher A) (k : A -> matcher B) : matcher B :=
  fun s => flat_map (fun '(a, rest) => k a rest) (m s).

Definition alt {A} (m1 m2 : matcher A) : matcher A :=
  fun s => m1 s ++ m2 s.

(** One character of a class. *)
Definition charIf (p : ascii -> bool) : matcher ascii :=
  fun s =>
    match s with
    | String c rest => if p c then [(c, rest)] else []
    | EmptyString => []
    end.

Definition oneOf (c1 c2 : ascii) : matcher ascii :=
  charIf (fun c => Ascii.eqb c c1 || Ascii.eqb c c2).

(** [\d{1,2}]: two digits if possible, else one. *)
Definition digits12 : matcher string :=
  bind (charIf JS.isDigit) (fun a =>
    alt (bind (charIf JS.isDigit) (fun b => ret (String a (String b EmptyString))))
        (ret (String a EmptyString))).

(** A literal, case-sensitive. *)
Fixpoint literal (l : string) : matcher unit :=
  match l with
  | EmptyString => ret tt
  | String c rest => bind (charIf (Ascii.eqb c)) (fun _ => literal rest)
  end.

(** [\s*]: the longest run of white space first. *)
Fixpoint whiteSpaces (s : string) : list (unit * string) :=
  match s with
  | String c rest =>
      if JS.isWhiteSpace c then whiteSpaces rest ++ [(tt, s)] else [(tt, s)]
  | EmptyString => [(tt, EmptyString)]
  end.

(** [(?: ... )?] *)
Definition optional (m : matcher unit) : matcher unit := alt m (ret tt).

(** [s.match(pattern)] without the [g] flag: the first way to match at the
    leftmost position where the pattern matches; [None] for [null]. *)
Fixpoint search {A} (m : matcher A) (s : string) : option A :=
  match m s with
  | (a, _) :: _ => Some a
  | [] =>
      match s with
      | String _ rest => search m rest
      | EmptyString => None
      end
  end.

(** The number of white-space characters at the start of [s]. *)
Fixpoint leadingWhiteSpace (s : string) : nat :=
  match s with
  | String c rest => if JS.isWhiteSpace c then S (leadingWhiteSpace rest) else O
  | EmptyString => O
  end.

(** [s.split(regex)].  [matchAt prev rest] is the length of the match of
    the regex at a position, given the character before the position (for a
    lookbehind) and the text from the position on.  [piece] holds, reversed,
    the characters since the end [p] of the last separator, [atP] tells
    whether the position is [p], and [skip] counts the characters of a
    separator still to pass. *)
Fixpoint splitLoop (matchAt : option ascii -> string -> option nat)
    (prev : option ascii) (skip : nat) (atP : bool) (piece : list ascii)
    (rest : string) : list string :=
  match rest with
  | EmptyString => [string_of_list_ascii (rev piece)]
  | String c rest' =>
      match skip with
      | S skip' => splitLoop matchAt (Some c) skip' true [] rest'
      | O =>
          match matchAt prev rest with
          | None => splitLoop matchAt (Some c) O false (c :: piece) rest'
          | Some O =>
              if atP
              then splitLoop matchAt (Some c) O false (c :: piece) rest'
              else string_of_list_ascii (rev piece)
                   :: splitLoop matchAt (Some c) O false [c] rest'
          | Some (S n) =>
              string_of_list_ascii (rev piece)
              :: splitLoop matchAt (Some c) n true [] rest'
          end
      end
  end.

Definition split (matchAt : option ascii -> string -> option nat)
    (s : string) : list string :=
  splitLoop matchAt None O true [] s.

End Regex.

(** [s.trim()] *)
Definition trim (s : string) : string :=
  let fix dropWhiteSpace (l : list ascii) : list ascii :=
    match l with
    | c :: rest => if JS.isWhiteSpace c then dropWhiteSpace rest else l
    | [] => []
    end in
  string_of_list_ascii
    (rev (dropWhiteSpace (rev (list_ascii_of_string (JS.skipWhiteSpace s))))).

(** A string in a condition: true unless empty. *)
Definition truthy (s : string) : bool :=
  match s with EmptyString => false | _ => true end.

(** ** The episode identity resolver (srtParser.ts) *)

(** [/[Ss](\d{1,2})[Ee](\d{1,2})/] *)
Definition sPattern : Regex.matcher (string * string) :=
  Regex.bind (Regex.oneOf "S" "s") (fun _ =>
  Regex.bind Regex.digits12 (fun season =>
  Regex.bind (Regex.oneOf "E" "e") (fun _ =>
  Regex.bind Regex.digits12 (fun episode =>
  Regex.ret (season, episode))))).

(** [/(\d{1,2})x(\d{1,2})/i] *)
Definition xPattern : Regex.matcher (string * string) :=
  Regex.bind Regex.digits12 (fun season =>
  Regex.bind (Regex.oneOf "x" "X") (fun _ =>
  Regex.bind Regex.digits12 (fun episode =>
  Regex.ret (season, episode)))).

(** The third pattern: [Ee], then optionally the group (?: pisode \s* ),
    then the capture (\d{1,2}); the source puts no [i] flag on it. *)
Definition ePattern : Regex.matcher string :=
  Regex.bind (Regex.oneOf "E" "e") (fun _ =>
  Regex.bind
    (Regex.optional
       (Regex.bind (Regex.literal "pisode") (fun _ => Regex.whiteSpaces)))
    (fun _ => Regex.digits12)).

Definition extractEpisodeIdFromFilename (filename : string) : option string :=
  match Regex.search sPattern filename with
  | Some (g1, g2) =>
      if truthy g1 && truthy g2
      then Some ("S" +:+ JS.padStart 2 "0" g1 +:+ "E" +:+ JS.padStart 2 "0" g2)
      else None
  | None =>
      match Regex.search xPattern filename with
      | Some (g1, g2) =>
          if truthy g1 && truthy g2
          then Some ("S" +:+ JS.padStart 2 "0" g1 +:+ "E" +:+ JS.padStart 2 "0" g2)
          else None
      | None =>
          match Regex.search ePattern filename with
          | Some g1 =>
              if truthy g1 then Some ("S01E" +:+ JS.padStart 2 "0" g1) else None
          | None => None
          end
      end
  end.

(** ** The speech-synthesis text splitter (AzureSpeechSynthesizer) *)

Definition MAX_CHARS_PER_CHUNK : nat := 2000.

(** [/(?<=[.!?])\s+/] *)
Definition sentenceBoundary (prev : option ascii) (rest : string) : option nat :=
  match prev with
  | Some c =>
      if Ascii.eqb c "." || Ascii.eqb c "!" || Ascii.eqb c "?"
      then match Regex.leadingWhiteSpace rest with
           | O => None
           | n => Some n
           end
      else None
  | None => None
  end.

(** [/(?<=,)\s*/] *)
Definition afterComma (prev : option ascii) (rest : string) : option nat :=
  match prev with
  | Some c =>
      if Ascii.eqb c "," then Some (Regex.leadingWhiteSpace rest) else None
  | None => None
  end.

Module Chunker.

(** The mutable locals of [splitTextIntoChunks]. *)
Record state : Type := mkState {
  chunks : list string;
  currentChunk : string;
}.

(** Body of the loop over the comma-separated parts of a long sentence. *)
Definition addPart (st : state) (part : string) : state :=
  if (MAX_CHARS_PER_CHUNK <? String.length (currentChunk st +:+ " " +:+ part))%nat
  then {| chunks := if truthy (currentChunk st)
                    then chunks st ++ [trim (currentChunk st)]
                    else chunks st;
          currentChunk := part |}
  else {| chunks := chunks st;
          currentChunk :=
            currentChunk st
            +:+ (if truthy (currentChunk st) then " " else EmptyString) +:+ part |}.

(** Body of the loop over the sentences. *)
Definition addSentence (st : state) (sentence : string) : state :=
  if (MAX_CHARS_PER_CHUNK <? String.length sentence)%nat
  then
    let flushed :=
      if truthy (currentChunk st)
      then {| chunks := chunks st ++ [trim (currentChunk st)];
              currentChunk := EmptyString |}
      else st in
    fold_left addPart (Regex.split afterComma sentence) flushed
  else if (MAX_CHARS_PER_CHUNK
           <? String.length (currentChunk st +:+ " " +:+ sentence))%nat
  then {| chunks := chunks st ++ [trim (currentChunk st)];
          currentChunk := sentence |}
  else {| chunks := chunks st;
          currentChunk :=
            currentChunk st
            +:+ (if truthy (currentChunk st) then " " else EmptyString) +:+ sentence |}.

End Chunker.

Definition splitTextIntoChunks (text : string) : list string :=
  if (String.length text <=? MAX_CHARS_PER_CHUNK)%nat
  then [text]
  else
    let sentences := Regex.split sentenceBoundary text in
    let st := fold_left Chunker.addSentence sentences
                (Chunker.mkState [] EmptyString) in
    if truthy (trim (Chunker.currentChunk st))
    then Chunker.chunks st ++ [trim (Chunker.currentChunk st)]
    else Chunker.chunks st.

(** ** Concrete inputs *)

(** The clips and subtitles of the repository's remapper test. *)
Definition clipE01 : ClipDefinition.t :=
  ClipDefinition.mk "S01E01" "e01.mp4" 10 20 1.
Definition clipE02 : ClipDefinition.t :=
  ClipDefinition.mk "S01E02" "e02.mp4" 30 40 2.
Definition testClips : list ClipDefinition.t := [clipE01; clipE02].

Definition testSubtitles : gmap string (list SubtitleEntry.t) :=
  <["S01E01" := [ SubtitleEntry.mk "S01E01" 1 12 15 "Sub 1";
                  SubtitleEntry.mk "S01E01" 2 50 55 "Not included" ]]>
  (<["S01E02" := [ SubtitleEntry.mk "S01E02" 1 32 38 "Sub 2" ]]> ∅).

(** One clip over an episode whose subtitle file lists a later line before an
    earlier one. *)
Definition wholeClip : ClipDefinition.t :=
  ClipDefinition.mk "S01E01" "e01.mp4" 0 10 1.

Definition shuffledSubtitles : gmap string (list SubtitleEntry.t) :=
  <["S01E01" := [ SubtitleEntry.mk "S01E01" 1 5 6 "B";
                  SubtitleEntry.mk "S01E01" 2 1 2 "A" ]]> ∅.

(** Two more inputs outside the hypotheses of the ordering theorem: a clip
    list with a clip whose end precedes its start, and an entry whose end
    precedes its start. *)
Definition backwardClips : list ClipDefinition.t :=
  [ ClipDefinition.mk "S01E01" "e01.mp4" 0 10 1;
    ClipDefinition.mk "S01E03" "e03.mp4" 10 0 2;
    ClipDefinition.mk "S01E02" "e02.mp4" 0 10 3 ].

Definition backwardClipSubtitles : gmap string (list SubtitleEntry.t) :=
  <["S01E01" := [ SubtitleEntry.mk "S01E01" 1 9 10 "A" ]]>
  (<["S01E02" := [ SubtitleEntry.mk "S01E02" 1 0 1 "B" ]]> ∅).

Definition backwardEntrySubtitles : gmap string (list SubtitleEntry.t) :=
  <["S01E01" := [ SubtitleEntry.mk "S01E01" 1 20 5 "A" ]]>
  (<["S01E02" := [ SubtitleEntry.mk "S01E02" 1 0 1 "B" ]]> ∅).

(** A job in its fourth stage, half way through it, a failed job and a
    completed job. *)
Definition runningJob : Job.t :=
  Job.mk (JobConfig.mk ModeA) analyzing
    (JobProgress.mk analyzing 50 [validating; parsing]).

Definition failedJob : Job.t :=
  Job.mk (JobConfig.mk ModeB) failed (JobProgress.mk failed 80 [validating]).

Definition completedJob : Job.t :=
  Job.mk (JobConfig.mk ModeB) completed
    (JobProgress.mk completed 100
       [ validating; parsing; analyzing; generating_clips; processing_video;
         generating_srt; generating_tts; mixing_audio ]).

(** A narration without any punctuation: 401 times the word "word" followed
    by a space, 2005 characters. *)
Fixpoint repeatString (n : nat) (s : string) : string :=
  match n with
  | O => EmptyString
  | S n' => s +:+ repeatString n' s
  end.

Definition runOnNarration : string := repeatString 401 "word ".

(** An episode identifier: S, two digits, E, two digits. *)
Definition isEpisodeId (id : string) : bool :=
  match list_ascii_of_string id with
  | [s; d1; d2; e; d3; d4] =>
      Ascii.eqb s "S" && JS.isDigit d1 && JS.isDigit d2
      && Ascii.eqb e "E" && JS.isDigit d3 && JS.isDigit d4
  | _ => false
  end.

(** A captured group of the resolver's patterns: one or two digits. *)
Definition group (g : string) : Prop :=
  allDigits g = true /\ (String.length g = 1 \/ String.length g = 2)%nat.

(** ** Vocabulary for further properties of the remapper *)



(** ** The overlap helper and the time marker (subtitleUtils.ts) *)

(** The value of a division of two finite numbers: [NaN] for 0/0, an infinity
    for any other division by zero. *)
Inductive quotient : Type :=
| QuotNaN
| QuotPosInf
| QuotNegInf
| QuotFin (q : Q).

Definition divide (x y : Q) : quotient :=
  if Qeq_bool y 0
  then if Qeq_bool x 0 then QuotNaN
       else if Qle_bool 0 x then QuotPosInf else QuotNegInf
  else QuotFin (x / y).

(** [a >= b] for a quotient [a] and a finite [b]; false on [NaN]. *)
Definition quotientGe (a : quotient) (b : Q) : bool :=
  match a with
  | QuotNaN => false
  | QuotPosInf => true
  | QuotNegInf => false
  | QuotFin q => Qle_bool b q
  end.

(** The predicate of the filter in [findOverlappingSubtitles]. *)
Definition overlapsEnough (startTime endTime minOverlap : Q)
    (entry : SubtitleEntry.t) : bool :=
  let overlapStart := Qmax (SubtitleEntry.startTime entry) startTime in
  let overlapEnd := Qmin (SubtitleEntry.endTime entry) endTime in
  let overlapDuration := Qmax 0 (overlapEnd - overlapStart) in
  let entryDuration :=
    (SubtitleEntry.endTime entry - SubtitleEntry.startTime entry)%Q in
  quotientGe (divide overlapDuration entryDuration) minOverlap.

(** [minOverlap] is optional and defaults to 0.5. *)
Definition findOverlappingSubtitles (entries : list SubtitleEntry.t)
    (startTime endTime : Q) (minOverlap : option Q) : list SubtitleEntry.t :=
  List.filter (overlapsEnough startTime endTime (default (1 # 2) minOverlap))
    entries.

Definition formatTimeMarker (seconds : Q) : string :=
  let mins := JS.floor (seconds / 60)%Q in
  let secs := JS.floor (JS.rem seconds 60) in
  JS.padStart 2 "0" (JS.toString mins) +:+ ":" +:+
  JS.padStart 2 "0" (JS.toString secs).

(** A timestamp of the pattern whose minutes and seconds fields are below
    60. *)
Definition inClockRange (t : string) : bool :=
  match list_ascii_of_string t with
  | [h1; h2; c1; m1; m2; c2; s1; s2; sep; f1; f2; f3] =>
      (JS.digitValue m1 <? 6) && (JS.digitValue s1 <? 6)
  | _ => false
  end.

(** ** The OpenAI speech synthesizer's text splitter (tts/openaiSpeech.ts) *)

Module OpenAISpeech.

(** OpenAI TTS has a limit of 4096 characters per request. *)
Definition MAX_CHARS_PER_CHUNK : nat := 4000.

Record state : Type := mkState {
  chunks : list string;
  currentChunk : string;
}.

Definition addPart (st : state) (part : string) : state :=
  if (MAX_CHARS_PER_CHUNK <? String.length (currentChunk st +:+ " " +:+ part))%nat
  then {| chunks := if truthy (currentChunk st)
                    then chunks st ++ [trim (currentChunk st)]
                    else chunks st;
          currentChunk := part |}
  else {| chunks := chunks st;
          currentChunk :=
            currentChunk st
            +:+ (if truthy (currentChunk st) then " " else EmptyString) +:+ part |}.

Definition addSentence (st : state) (sentence : string) : state :=
  if (MAX_CHARS_PER_CHUNK <? String.length sentence)%nat
  then
    let flushed :=
      if truthy (currentChunk st)
      then {| chunks := chunks st ++ [trim (currentChunk st)];
              currentChunk := EmptyString |}
      else st in
    fold_left addPart (Regex.split afterComma sentence) flushed
  else if (MAX_CHARS_PER_CHUNK
           <? String.length (currentChunk st +:+ " " +:+ sentence))%nat
  then {| chunks := chunks st ++ [trim (currentChunk st)];
          currentChunk := sentence |}
  else {| chunks := chunks st;
          currentChunk :=
            currentChunk st
            +:+ (if truthy (currentChunk st) then " " else EmptyString)
            +:+ sentence |}.

Definition splitTextIntoChunks (text : string) : list string :=
  if (String.length text <=? MAX_CHARS_PER_CHUNK)%nat
  then [text]
  else
    let sentences := Regex.split sentenceBoundary text in
    let st := fold_left addSentence sentences (mkState [] EmptyString) in
    if truthy (trim (currentChunk st))
    then chunks st ++ [trim (currentChunk st)]
    else chunks st.

End OpenAISpeech.

(** The two splitters differ in the ceiling only; the chunking loop for a
    ceiling [limit], on pairs (chunks, currentChunk). *)
Definition addPartWith (limit : nat) (st : list string * string)
    (part : string) : list string * string :=
  let '(chunks, currentChunk) := st in
  if (limit <? String.length (currentChunk +:+ " " +:+ part))%nat
  then (if truthy currentChunk then chunks ++ [trim currentChunk] else chunks,
        part)
  else (chunks,
        currentChunk +:+ (if truthy currentChunk then " " else EmptyString)
        +:+ part).

Definition addSentenceWith (limit : nat) (st : list string * string)
    (sentence : string) : list string * string :=
  let '(chunks, currentChunk) := st in
  if (limit <? String.length sentence)%nat
  then fold_left (addPartWith limit) (Regex.split afterComma sentence)
         (if truthy currentChunk
          then (chunks ++ [trim currentChunk], EmptyString)
          else st)
  else if (limit <? String.length (currentChunk +:+ " " +:+ sentence))%nat
  then (chunks ++ [trim currentChunk], sentence)
  else (chunks,
        currentChunk +:+ (if truthy currentChunk then " " else EmptyString)
        +:+ sentence).

Definition splitWith (limit : nat) (text : string) : list string :=
  if (String.length text <=? limit)%nat
  then [text]
  else
    let '(chunks, currentChunk) :=
      fold_left (addSentenceWith limit) (Regex.split sentenceBoundary text)
        ([], EmptyString) in
    if truthy (trim currentChunk) then chunks ++ [trim currentChunk] else chunks.

(** The condition under which the splitters keep their ceiling: every
    comma-separated part of every sentence longer than the ceiling fits. *)
Definition partsFit (limit : nat) (text : string) : Prop :=
  forall sentence,
    sentence ∈ Regex.split sentenceBoundary text ->
    (limit < String.length sentence)%nat ->
    forall part,
      part ∈ Regex.split afterComma sentence ->
      (String.length part <= limit)%nat.

(** ** The season timeline (subtitleUtils.ts, subtitles/types.ts) *)

Module EpisodeSubtitles.
Record t : Type := mk {
  episodeId : string;
  episodeNumber : Z;
  videoFileName : option string;
  entries : list SubtitleEntry.t;
}.
End EpisodeSubtitles.

Module SeasonSubtitles.
Record t : Type := mk {
  seriesName : string;
  season : Z;
  language : string;
  episodes : list EpisodeSubtitles.t;
  totalEntries : Z;
}.
End SeasonSubtitles.

(** [[...episodes].sort((a, b) => a.episodeNumber - b.episodeNumber)].
    [Array.prototype.sort] is stable; with this comparator its result is the
    one a stable insertion sort computes. *)
Fixpoint insertEpisode (episode : EpisodeSubtitles.t)
    (sorted : list EpisodeSubtitles.t) : list EpisodeSubtitles.t :=
  match sorted with
  | [] => [episode]
  | other :: rest =>
      if EpisodeSubtitles.episodeNumber episode
         <=? EpisodeSubtitles.episodeNumber other
      then episode :: other :: rest
      else other :: insertEpisode episode rest
  end.

Definition sortEpisodes (episodes : list EpisodeSubtitles.t)
    : list EpisodeSubtitles.t :=
  fold_right insertEpisode [] episodes.

Definition createSeasonTimeline (episodes : list EpisodeSubtitles.t)
    (seriesName : string) (season : Z) (language : string)
    : SeasonSubtitles.t :=
  let sortedEpisodes := sortEpisodes episodes in
  let totalEntries :=
    fold_left
      (fun sum ep => sum + Z.of_nat (length (EpisodeSubtitles.entries ep)))
      sortedEpisodes 0 in
  {| SeasonSubtitles.seriesName := seriesName;
     SeasonSubtitles.season := season;
     SeasonSubtitles.language := language;
     SeasonSubtitles.episodes := sortedEpisodes;
     SeasonSubtitles.totalEntries := totalEntries |}.

(** ** Narration subtitles (subtitleUtils.ts) *)

Module RawSrtEntry.
Record t : Type := mk {
  index : Z;
  startTime : Q;
  endTime : Q;
  text : string;
}.
End RawSrtEntry.

Module NarrativeBlock.
Record t : Type := mk {
  text : string;
  durationSeconds : Q;
}.
End NarrativeBlock.

(** [array.join(separator)] *)
Fixpoint join (separator : string) (l : list string) : string :=
  match l with
  | [] => EmptyString
  | [s] => s
  | s :: rest => s +:+ separator +:+ join separator rest
  end.

(** The loop [for (let i = 0; i < words.length; i += wordsPerSubtitle)] for a
    positive step: each turn pushes [words.slice(i, i + step).join(' ')].
    [fuel] bounds the number of turns. *)
Fixpoint chunkWords (fuel : nat) (step : nat) (words : list string)
    : list string :=
  match fuel with
  | O => []
  | S fuel' =>
      match words with
      | [] => []
      | _ => join " " (take step words) :: chunkWords fuel' step (drop step words)
      end
  end.

(** The chunks of one block; [None] when the loop does not end.
    [Math.ceil(durationSeconds / 8)] is at least 1 for a positive duration and
    the step is a positive integer.  For a duration of 0 the step is
    [Infinity] and the single chunk is all the words.  For a negative
    duration the step is zero or negative: [i] never reaches [words.length]
    and the loop pushes empty chunks for ever. *)
Definition blockChunks (block : NarrativeBlock.t) : option (list string) :=
  let words := JS.split " " (NarrativeBlock.text block) in
  let duration := NarrativeBlock.durationSeconds block in
  if Qle_bool duration 0
  then if Qeq_bool duration 0 then Some [join " " words] else None
  else
    let wordsPerSubtitle :=
      Qceiling (inject_Z (Z.of_nat (length words))
                / inject_Z (Qceiling (duration / 8)))%Q in
    Some (chunkWords (length words) (Z.to_nat wordsPerSubtitle) words).

Module Narrative.

Record state : Type := mkState {
  entries : list RawSrtEntry.t;
  currentTime : Q;
  index : Z;
}.

(** Body of the loop over the chunks of a block. *)
Definition pushChunk (timePerChunk : Q) (st : state) (chunk : string) : state :=
  {| entries :=
       entries st ++
       [ {| RawSrtEntry.index := index st;
            RawSrtEntry.startTime := currentTime st;
            RawSrtEntry.endTime := (currentTime st + timePerChunk)%Q;
            RawSrtEntry.text := chunk |} ];
     currentTime := (currentTime st + timePerChunk)%Q;
     index := index st + 1 |}.

(** Body of the loop over the blocks. *)
Definition addBlock (st : option state) (block : NarrativeBlock.t)
    : option state :=
  match st with
  | None => None
  | Some st =>
      match blockChunks block with
      | None => None
      | Some chunks =>
          let timePerChunk :=
            (NarrativeBlock.durationSeconds block
             / inject_Z (Z.of_nat (length chunks)))%Q in
          Some (fold_left (pushChunk timePerChunk) chunks st)
      end
  end.

Definition run (narrativeBlocks : list NarrativeBlock.t) (startOffset : Q)
    : option state :=
  fold_left addBlock narrativeBlocks
    (Some {| entries := []; currentTime := startOffset; index := 1 |}).

End Narrative.

(** [startOffset] is optional and defaults to 0.  [None]: the call does not
    return. *)
Definition generateNarrativeSubtitles (narrativeBlocks : list NarrativeBlock.t)
    (startOffset : option Q) : option (list RawSrtEntry.t) :=
  Narrative.entries <$> Narrative.run narrativeBlocks (default 0%Q startOffset).



(** What the loop over the chunks of a block pushes, and the clock after
    [n] chunks, in closed form. *)
Fixpoint chunkEntries (timePerChunk time : Q) (idx : Z) (chunks : list string)
    : list RawSrtEntry.t :=
  match chunks with
  | [] => []
  | chunk :: rest =>
      RawSrtEntry.mk idx time (time + timePerChunk)%Q chunk
      :: chunkEntries timePerChunk (time + timePerChunk)%Q (idx + 1) rest
  end.

Fixpoint clockAfter (timePerChunk time : Q) (n : nat) : Q :=
  match n with
  | O => time
  | S n' => clockAfter timePerChunk (time + timePerChunk)%Q n'
  end.

(** ** Parsing and generating subtitle files (srtParser.ts) *)

Definition LF : ascii := "010"%char.
Definition CR : ascii := "013"%char.

(** [content.replace(/\r\n/g, '\n')] and [.replace(/\r/g, '\n')] *)
Fixpoint replaceCRLF (s : string) : string :=
  match s with
  | EmptyString => EmptyString
  | String c rest =>
      match rest with
      | String d rest' =>
          if Ascii.eqb c CR && Ascii.eqb d LF
          then String LF (replaceCRLF rest')
          else String c (replaceCRLF rest)
      | EmptyString => String c EmptyString
      end
  end.

Fixpoint replaceCR (s : string) : string :=
  match s with
  | EmptyString => EmptyString
  | String c rest =>
      String (if Ascii.eqb c CR then LF else c) (replaceCR rest)
  end.

(** The separator of [split(/\n\n+/)]: two or more line feeds. *)
Fixpoint leadingLineFeeds (s : string) : nat :=
  match s with
  | String c rest => if Ascii.eqb c LF then S (leadingLineFeeds rest) else O
  | EmptyString => O
  end.

Definition blankLines (prev : option ascii) (rest : string) : option nat :=
  match leadingLineFeeds rest with
  | S (S n) => Some (S (S n))
  | _ => None
  end.

(** [parseInt(s, 10)] as an integer; [None] for [NaN]. *)
Definition parseInteger (s : string) : option Z :=
  let trimmed := JS.skipWhiteSpace s in
  let '(sign, body) :=
    match trimmed with
    | String "-" rest => (-1, rest)
    | String "+" rest => (1, rest)
    | _ => (1, trimmed)
    end in
  if JS.startsWithDigit body
  then Some (sign * JS.digitsValue 0 body)
  else None.

(** The group [(\d{2}:\d{2}:\d{2}[,\.]\d{3})] of the timestamp line. *)
Definition digit : Regex.matcher ascii := Regex.charIf JS.isDigit.

Definition timestampGroup : Regex.matcher string :=
  Regex.bind digit (fun h1 =>
  Regex.bind digit (fun h2 =>
  Regex.bind (Regex.charIf (Ascii.eqb ":")) (fun c1 =>
  Regex.bind digit (fun m1 =>
  Regex.bind digit (fun m2 =>
  Regex.bind (Regex.charIf (Ascii.eqb ":")) (fun c2 =>
  Regex.bind digit (fun s1 =>
  Regex.bind digit (fun s2 =>
  Regex.bind (Regex.oneOf "," ".") (fun sep =>
  Regex.bind digit (fun f1 =>
  Regex.bind digit (fun f2 =>
  Regex.bind digit (fun f3 =>
  Regex.ret
    (string_of_list_ascii [h1; h2; c1; m1; m2; c2; s1; s2; sep; f1; f2; f3]))))))))))))).

(** The pattern of the timestamp line: a timestamp group, optional white
    space, the arrow, optional white space, a timestamp group. *)
Definition timestampLinePattern : Regex.matcher (string * string) :=
  Regex.bind timestampGroup (fun startText =>
  Regex.bind Regex.whiteSpaces (fun _ =>
  Regex.bind (Regex.literal "-->") (fun _ =>
  Regex.bind Regex.whiteSpaces (fun _ =>
  Regex.bind timestampGroup (fun endText =>
  Regex.ret (startText, endText)))))).

(** What a call of the parser does: it throws, or it returns the entries.
    [ParsedNaN] stands for a result that would hold an entry with a [NaN]
    time, which the rational fields of [RawSrtEntry] cannot hold. *)
Inductive parsed (A : Type) : Type :=
| ParseThrows (message : string)
| ParsedNaN
| Parsed (entries : list A).
Arguments ParseThrows {A} message.
Arguments ParsedNaN {A}.
Arguments Parsed {A} entries.

(** Body of the loop over the blocks. *)
Definition parseBlock (acc : parsed RawSrtEntry.t) (block : string)
    : parsed RawSrtEntry.t :=
  match acc with
  | Parsed entries =>
      let lines :=
        List.filter (fun line => truthy (trim line)) (JS.split LF block) in
      match lines with
      | indexLine :: timestampLine :: textLines =>
          match textLines with
          | [] => Parsed entries
          | _ =>
              if negb (truthy indexLine) then Parsed entries
              else
                match parseInteger (trim indexLine) with
                | None => Parsed entries
                | Some index =>
                    if negb (truthy timestampLine) then Parsed entries
                    else
                      match Regex.search timestampLinePattern timestampLine with
                      | None => Parsed entries
                      | Some (startText, endText) =>
                          if negb (truthy startText) || negb (truthy endText)
                          then Parsed entries
                          else
                            match srtTimeToSeconds startText with
                            | Throw message => ParseThrows message
                            | Return startTime =>
                                match srtTimeToSeconds endText with
                                | Throw message => ParseThrows message
                                | Return endTime =>
                                    match startTime, endTime with
                                    | JS.Num s, JS.Num e =>
                                        Parsed
                                          (entries ++
                                           [ RawSrtEntry.mk index s e
                                               (trim (join (String LF EmptyString)
                                                        textLines)) ])
                                    | _, _ => ParsedNaN
                                    end
                                end
                            end
                      end
                end
          end
      | _ => Parsed entries
      end
  | other => other
  end.

Definition parseSrtContent (content : string) : parsed RawSrtEntry.t :=
  let normalizedContent := replaceCR (replaceCRLF content) in
  let blocks :=
    List.filter (fun block => truthy (trim block))
      (Regex.split blankLines normalizedContent) in
  fold_left parseBlock blocks (Parsed []).

(** [rawEntries.map((entry) => ({ ...entry, episodeId }))] *)
Definition parseSrtFile (content episodeId : string) : parsed SubtitleEntry.t :=
  match parseSrtContent content with
  | ParseThrows message => ParseThrows message
  | ParsedNaN => ParsedNaN
  | Parsed rawEntries =>
      Parsed
        (map (fun entry =>
                SubtitleEntry.mk episodeId
                  (RawSrtEntry.index entry) (RawSrtEntry.startTime entry)
                  (RawSrtEntry.endTime entry) (RawSrtEntry.text entry))
           rawEntries)
  end.



(** The splitter's state (the chunks pushed and the current chunk) stays
    within the ceiling. *)
Definition fits (limit : nat) (st : list string * string) : Prop :=
  Forall (fun chunk => (String.length chunk <= limit)%nat) st.1
  /\ (String.length st.2 <= limit)%nat.

(** The property every parsed entry has: times read from a timestamp of the
    pattern, so non-negative rationals. *)
Definition timedEntry (e : RawSrtEntry.t) : Prop :=
  (0 <= RawSrtEntry.startTime e)%Q /\ (0 <= RawSrtEntry.endTime e)%Q.

(** ** Vocabulary for the round trip through a subtitle file *)










(** ** The season text for the language model (subtitleUtils.ts) *)

(** One line of an episode: the time marker in brackets, then the text. *)
Definition entryLine (entry : SubtitleEntry.t) : string :=
  "[" +:+ formatTimeMarker (SubtitleEntry.startTime entry) +:+ "] "
  +:+ SubtitleEntry.text entry.

Definition truncationMarker : string :=
  String LF "[...truncated...]".

(** [maxCharsPerEpisode && length > maxCharsPerEpisode]: an absent limit and
    the limit 0 are falsy. *)
Definition overLimit (maxCharsPerEpisode : option Q) (length : nat) : bool :=
  match maxCharsPerEpisode with
  | Some limit =>
      negb (Qeq_bool limit 0)
      && negb (Qle_bool (inject_Z (Z.of_nat length)) limit)
  | None => false
  end.

(** The loop over the entries of an episode, from the text built so far; the
    [break] ends it. *)
Fixpoint episodeTextFrom (maxCharsPerEpisode : option Q) (episodeText : string)
    (entries : list SubtitleEntry.t) : string :=
  match entries with
  | [] => episodeText
  | entry :: rest =>
      let line := entryLine entry in
      if overLimit maxCharsPerEpisode
           (String.length episodeText + String.length line)
      then episodeText +:+ truncationMarker
      else
        episodeTextFrom maxCharsPerEpisode
          (episodeText
           +:+ (if truthy episodeText then String LF EmptyString
                else EmptyString)
           +:+ line)
          rest
  end.

Definition episodeText (maxCharsPerEpisode : option Q)
    (entries : list SubtitleEntry.t) : string :=
  episodeTextFrom maxCharsPerEpisode EmptyString entries.

Definition episodeLines (maxCharsPerEpisode : option Q)
    (episode : EpisodeSubtitles.t) : list string :=
  [ "--- " +:+ EpisodeSubtitles.episodeId episode +:+ " ---";
    episodeText maxCharsPerEpisode (EpisodeSubtitles.entries episode);
    EmptyString ].

Definition generateSeasonTextForLLM (seasonSubtitles : SeasonSubtitles.t)
    (maxCharsPerEpisode : option Q) : string :=
  join (String LF EmptyString)
    ([ "=== " +:+ SeasonSubtitles.seriesName seasonSubtitles +:+ " - Season "
       +:+ JS.toString (SeasonSubtitles.season seasonSubtitles) +:+ " ===";
       "Language: " +:+ SeasonSubtitles.language seasonSubtitles;
       "Total Episodes: "
       +:+ JS.toString
             (Z.of_nat (length (SeasonSubtitles.episodes seasonSubtitles)));
       EmptyString ]
     ++ flat_map (episodeLines maxCharsPerEpisode)
          (SeasonSubtitles.episodes seasonSubtitles)).

(** ** The speech markup helpers of the Azure synthesizer *)

(** [text.replace(/c/g, replacement)] for a one-character pattern. *)
Fixpoint replaceAll (pattern : ascii) (replacement : string) (s : string)
    : string :=
  match s with
  | EmptyString => EmptyString
  | String c rest =>
      if Ascii.eqb c pattern
      then replacement +:+ replaceAll pattern replacement rest
      else String c (replaceAll pattern replacement rest)
  end.

Definition doubleQuote : ascii := "034"%char.

Definition escapeXml (text : string) : string :=
  replaceAll "'" "&apos;"
    (replaceAll doubleQuote "&quot;"
       (replaceAll ">" "&gt;"
          (replaceAll "<" "&lt;"
             (replaceAll "&" "&amp;" text)))).

Definition isLower (c : ascii) : bool :=
  ((97 <=? N_of_ascii c) && (N_of_ascii c <=? 122))%N.

Definition isUpper (c : ascii) : bool :=
  ((65 <=? N_of_ascii c) && (N_of_ascii c <=? 90))%N.

(** The group of the voice pattern: two lower-case letters, a hyphen, two
    upper-case letters. *)
Definition languagePattern : Regex.matcher string :=
  Regex.bind (Regex.charIf isLower) (fun a =>
  Regex.bind (Regex.charIf isLower) (fun b =>
  Regex.bind (Regex.charIf (Ascii.eqb "-")) (fun h =>
  Regex.bind (Regex.charIf isUpper) (fun c =>
  Regex.bind (Regex.charIf isUpper) (fun d =>
  Regex.ret (string_of_list_ascii [a; b; h; c; d])))))).

(** The pattern is anchored at the start of the voice name; without a match
    the language is en-US. *)
Definition getLanguageFromVoice (voice : string) : string :=
  match languagePattern voice with
  | (code, _) :: _ => code
  | [] => "en-US"
  end.

Definition isLanguageCode (code : string) : bool :=
  match list_ascii_of_string code with
  | [a; b; h; c; d] =>
      isLower a && isLower b && Ascii.eqb h "-" && isUpper c && isUpper d
  | _ => false
  end.

(** A text without the five characters the escaping replaces. *)
Definition plainText (text : string) : Prop :=
  countChar "&" text = O /\ countChar "<" text = O /\ countChar ">" text = O
  /\ countChar doubleQuote text = O /\ countChar "'" text = O.

(** ** The narration subtitles of the pipeline (SummaryPipeline) *)








(** ** More concrete inputs *)

(** A clip of an episode without subtitles, the first line the remapper
    test emits, the entry it comes from, and an entry without duration. *)
Definition missingClip : ClipDefinition.t :=
  ClipDefinition.mk "S01E09" "e09.mp4" 0 5 3.

Definition firstRemapped : RemappedSubtitle.t :=
  RemappedSubtitle.mk 1 2 5 "Sub 1" "S01E01" 12.

Definition subOne : SubtitleEntry.t := SubtitleEntry.mk "S01E01" 1 12 15 "Sub 1".

Definition instantEntry : SubtitleEntry.t :=
  SubtitleEntry.mk "S01E01" 3 16 16 "!".

Definition episodeOneEntries : list SubtitleEntry.t :=
  [ subOne; SubtitleEntry.mk "S01E01" 2 50 55 "Not included" ].

(** One sentence of 2406 characters, and one of 4806, a comma after every
    word. *)
Definition commaNarration : string := repeatString 401 "word, ".

Definition longCommaNarration : string := repeatString 801 "word, ".

(** A job of the same mode as [runningJob] in a later stage. *)
Definition laterJob : Job.t :=
  Job.mk (JobConfig.mk ModeA) generating_srt
    (JobProgress.mk generating_srt 10
       [validating; parsing; analyzing; generating_clips; processing_video]).

(** The blocks of the repository's narration test. *)
Definition testBlocks : list NarrativeBlock.t :=
  [ NarrativeBlock.mk "This is the first part of the narrative." 10;
    NarrativeBlock.mk "And this is the second part." 8 ].



(** * Theorems *)

(** ** The clip timeline remapper *)

Section RemapFacts.
Context (episodeSubtitles : gmap string (list SubtitleEntry.t)).

Abbreviation cstart := ClipDefinition.startTime.
Abbreviation cend := ClipDefinition.endTime.
Abbreviation sstart := SubtitleEntry.startTime.
Abbreviation send := SubtitleEntry.endTime.


Lemma inner_loop clip subs st :
  fold_left (Remap.pushSubtitle clip) subs st =
  Remap.mkState
    (Remap.remapped st
     ++ clipBlock clip (Remap.currentOffset st) (Remap.index st) subs)
    (Remap.currentOffset st)
    (Remap.index st + Z.of_nat (length subs)).
Proof.
  revert st; induction subs as [|s rest IH]; intros [r o i]; simpl.
  - by rewrite app_nil_r, Z.add_0_r.
  - rewrite IH; simpl. rewrite <- app_assoc; simpl. f_equal. lia.
Qed.

Lemma processClip_unfold st clip :
  Remap.processClip episodeSubtitles st clip =
  Remap.mkState
    (Remap.remapped st
     ++ clipBlock clip (Remap.currentOffset st) (Remap.index st)
          (Remap.clipSubtitles episodeSubtitles clip))
    (Remap.currentOffset st + (cend clip - cstart clip))%Q
    (Remap.index st
     + Z.of_nat (length (Remap.clipSubtitles episodeSubtitles clip))).
Proof. unfold Remap.processClip. by rewrite inner_loop. Qed.

Lemma run_snoc pre clip :
  Remap.run (pre ++ [clip]) episodeSubtitles =
  Remap.processClip episodeSubtitles (Remap.run pre episodeSubtitles) clip.
Proof. unfold Remap.run. by rewrite fold_left_app. Qed.

(** The loop only ever appends: the output for a prefix of the clips is a
    prefix of the output. *)
Lemma fold_processClip_extends post st :
  exists later,
    Remap.remapped (fold_left (Remap.processClip episodeSubtitles) post st)
    = Remap.remapped st ++ later.
Proof.
  revert st; induction post as [|c post IH]; intros st; simpl.
  - exists []. by rewrite app_nil_r.
  - destruct (IH (Remap.processClip episodeSubtitles st c)) as [later ->].
    rewrite processClip_unfold; simpl.
    eexists. by rewrite <- app_assoc.
Qed.

(** Decomposition of the output around one clip. *)
Lemma remap_around pre clip post :
  exists later,
    remapSubtitlesToClips (pre ++ clip :: post) episodeSubtitles =
    remapSubtitlesToClips pre episodeSubtitles
    ++ clipBlock clip
         (Remap.currentOffset (Remap.run pre episodeSubtitles))
         (Remap.index (Remap.run pre episodeSubtitles))
         (Remap.clipSubtitles episodeSubtitles clip)
    ++ later.
Proof.
  unfold remapSubtitlesToClips, Remap.run.
  rewrite fold_left_app; simpl.
  destruct (fold_processClip_extends post
              (Remap.processClip episodeSubtitles
                 (fold_left (Remap.processClip episodeSubtitles) pre Remap.initial)
                 clip)) as [later ->].
  exists later. rewrite processClip_unfold; simpl. by rewrite <- app_assoc.
Qed.



End RemapFacts.

Section RemapTheorems.
Context (episodeSubtitles : gmap string (list SubtitleEntry.t)).

Abbreviation cstart := ClipDefinition.startTime.
Abbreviation cend := ClipDefinition.endTime.
Abbreviation sstart := SubtitleEntry.startTime.
Abbreviation send := SubtitleEntry.endTime.





Lemma clipSubtitles_spec clip entry :
  entry ∈ Remap.clipSubtitles episodeSubtitles clip <->
  entry ∈ Remap.entriesOf episodeSubtitles clip
  /\ (cstart clip <= sstart entry)%Q /\ (send entry <= cend clip)%Q.
Proof.
  unfold Remap.clipSubtitles, Remap.inClip.
  rewrite !list_elem_of_In, filter_In, andb_true_iff, !Qle_bool_iff. tauto.
Qed.



Lemma emittedFor_clipBlock pre clip :
  emittedFor episodeSubtitles pre clip =
  clipBlock clip
    (Remap.currentOffset (Remap.run pre episodeSubtitles))
    (Remap.index (Remap.run pre episodeSubtitles))
    (Remap.clipSubtitles episodeSubtitles clip).
Proof.
  unfold emittedFor. rewrite processClip_unfold; simpl.
  by rewrite drop_app_length.
Qed.

Lemma remap_emitted pre clip post :
  exists later,
    remapSubtitlesToClips (pre ++ clip :: post) episodeSubtitles =
    remapSubtitlesToClips pre episodeSubtitles
    ++ emittedFor episodeSubtitles pre clip ++ later.
Proof. rewrite emittedFor_clipBlock. apply remap_around. Qed.




Lemma filter_StronglySorted {A} (R : A -> A -> Prop) (f : A -> bool) l :
  StronglySorted R l -> StronglySorted R (List.filter f l).
Proof.
  induction 1 as [|a l Hl IH Ha]; simpl; [constructor|].
  destruct (f a); [|done]. constructor; [done|].
  apply List.Forall_forall. intros x Hx. apply filter_In in Hx as [Hx _].
  revert x Hx. by apply List.Forall_forall.
Qed.

Lemma clipBlock_start_bounds clip offset subs :
  Forall (fun s => (cstart clip <= sstart s)%Q /\ (sstart s <= send s)%Q
                   /\ (send s <= cend clip)%Q) subs ->
  forall idx,
    Forall (fun r => (offset <= RemappedSubtitle.startTime r)%Q
                     /\ (RemappedSubtitle.startTime r
                         <= offset + (cend clip - cstart clip))%Q)
           (clipBlock clip offset idx subs).
Proof.
  induction 1 as [|s rest (H1 & H2 & H3) _ IH]; intros idx; simpl;
    constructor; [simpl; lra | apply IH].
Qed.

Lemma clipBlock_end_bound clip offset subs :
  Forall (fun s => (send s <= cend clip)%Q) subs ->
  forall idx,
    Forall (fun r => (RemappedSubtitle.endTime r
                      <= offset + (cend clip - cstart clip))%Q)
           (clipBlock clip offset idx subs).
Proof.
  induction 1 as [|s rest H _ IH]; intros idx; simpl;
    constructor; [simpl; lra | apply IH].
Qed.

Lemma clipBlock_sorted clip offset subs :
  StronglySorted (fun a b => (sstart a <= sstart b)%Q) subs ->
  forall idx,
    StronglySorted Qle
      (map RemappedSubtitle.startTime (clipBlock clip offset idx subs)).
Proof.
  induction 1 as [|s rest _ IH Hs]; intros idx; simpl; constructor; [apply IH|].
  clear IH. revert idx. induction Hs as [|t rest Ht _ IH]; intros idx; simpl;
    constructor; [lra | apply IH].
Qed.

Lemma clipSubtitles_end_bound clip :
  Forall (fun s => (send s <= cend clip)%Q)
         (Remap.clipSubtitles episodeSubtitles clip).
Proof.
  apply List.Forall_forall. intros s Hs.
  apply list_elem_of_In, clipSubtitles_spec in Hs. tauto.
Qed.

Lemma entriesOf_chronological clip :
  chronologicalSubtitles episodeSubtitles ->
  Forall (fun e => (sstart e <= send e)%Q) (Remap.entriesOf episodeSubtitles clip)
  /\ StronglySorted (fun a b => (sstart a <= sstart b)%Q)
       (Remap.entriesOf episodeSubtitles clip).
Proof.
  intros H. unfold Remap.entriesOf.
  destruct (episodeSubtitles !! ClipDefinition.episodeId clip) as [l|] eqn:E; simpl.
  - by apply (H _ _ E).
  - split; constructor.
Qed.

Lemma remap_sorted_invariant clips :
  wellFormedClips clips -> chronologicalSubtitles episodeSubtitles ->
  StronglySorted Qle
    (map RemappedSubtitle.startTime (remapSubtitlesToClips clips episodeSubtitles))
  /\ Forall (fun r => (RemappedSubtitle.startTime r
                       <= Remap.currentOffset (Remap.run clips episodeSubtitles))%Q)
       (remapSubtitlesToClips clips episodeSubtitles).
Proof.
  intros Hc Hs. induction clips as [|clip pre IH] using rev_ind.
  - split; constructor.
  - apply Forall_app in Hc as [Hpre Hclip].
    apply Forall_cons in Hclip as [Hclip _].
    destruct (IH Hpre) as [IH1 IH2]. clear IH.
    unfold remapSubtitlesToClips in *.
    rewrite run_snoc, processClip_unfold; simpl.
    set (off := Remap.currentOffset (Remap.run pre episodeSubtitles)) in *.
    set (idx := Remap.index (Remap.run pre episodeSubtitles)).
    destruct (entriesOf_chronological clip Hs) as [Hle Hsorted].
    assert (Hb : Forall (fun r => (off <= RemappedSubtitle.startTime r)%Q
                     /\ (RemappedSubtitle.startTime r
                         <= off + (cend clip - cstart clip))%Q)
                   (clipBlock clip off idx
                      (Remap.clipSubtitles episodeSubtitles clip))).
    { apply clipBlock_start_bounds. apply List.Forall_forall. intros s Hin.
      pose proof Hin as Hin'.
      apply list_elem_of_In, clipSubtitles_spec in Hin as (Hin & H1 & H2).
      rewrite List.Forall_forall in Hle.
      apply list_elem_of_In, Hle in Hin. tauto. }
    split.
    + rewrite map_app. apply StronglySorted_app_2.
      * intros x1 x2 Hx1 Hx2.
        apply list_elem_of_fmap in Hx1 as (r1 & -> & Hr1).
        apply list_elem_of_fmap in Hx2 as (r2 & -> & Hr2).
        rewrite List.Forall_forall in IH2, Hb.
        apply list_elem_of_In, IH2 in Hr1.
        apply list_elem_of_In, Hb in Hr2. lra.
      * done.
      * apply clipBlock_sorted. unfold Remap.clipSubtitles.
        by apply filter_StronglySorted.
    + apply Forall_app. split.
      * eapply Forall_impl; [exact IH2|]. simpl. intros r Hr. lra.
      * eapply Forall_impl; [exact Hb|]. simpl. intros r Hr. lra.
Qed.

(** C2, as amended.  When every clip has [startTime <= endTime] and every
    episode's entries have [startTime <= endTime] and are listed by
    ascending start time, the output has non-decreasing start times; and
    (with no assumption) every entry emitted for a clip ends at or before
    the output offset in effect when the clip was processed plus the clip's
    duration. *)
Theorem remap_monotone_and_bounded clips :
  (wellFormedClips clips -> chronologicalSubtitles episodeSubtitles ->
   StronglySorted Qle
     (map RemappedSubtitle.startTime
          (remapSubtitlesToClips clips episodeSubtitles)))
  /\ (forall pre clip post, clips = pre ++ clip :: post ->
        let outputOffset := Remap.currentOffset (Remap.run pre episodeSubtitles) in
        let emitted := emittedFor episodeSubtitles pre clip in
        (exists later,
            remapSubtitlesToClips clips episodeSubtitles
            = remapSubtitlesToClips pre episodeSubtitles ++ emitted ++ later)
        /\ Forall (fun r => (RemappedSubtitle.endTime r
                             <= outputOffset + (cend clip - cstart clip))%Q)
                  emitted).
Proof.
  split.
  - intros Hc Hs. by apply remap_sorted_invariant.
  - intros pre clip post -> outputOffset emitted.
    split; [apply remap_emitted|].
    subst emitted. rewrite emittedFor_clipBlock.
    apply clipBlock_end_bound, clipSubtitles_end_bound.
Qed.

End RemapTheorems.

(** The repository's test of the remapper. *)
Example remap_test :
  remapSubtitlesToClips testClips testSubtitles =
  [ RemappedSubtitle.mk 1 (0 + (12 - 10)) (0 + (15 - 10)) "Sub 1" "S01E01" 12;
    RemappedSubtitle.mk 2 (0 + (20 - 10) + (32 - 30)) (0 + (20 - 10) + (38 - 30))
      "Sub 2" "S01E02" 32 ]%Q.
Proof. reflexivity. Qed.

Example calculateTotalDuration_test :
  (calculateTotalDuration
     [ ClipDefinition.mk "S01E01" "e01.mp4" 10 20 1;
       ClipDefinition.mk "S01E02" "e02.mp4" 0 15 2 ] == 25)%Q.
Proof. reflexivity. Qed.



Lemma testClips_wellFormed : wellFormedClips testClips.
Proof. repeat constructor; by vm_compute. Qed.

Lemma testSubtitles_chronological : chronologicalSubtitles testSubtitles.
Proof.
  unfold chronologicalSubtitles, testSubtitles.
  apply (map_Forall_insert_2 (fun _ entries => _ /\ _)).
  { split; repeat constructor; by vm_compute. }
  apply (map_Forall_insert_2 (fun _ entries => _ /\ _)).
  { split; repeat constructor; by vm_compute. }
  apply map_Forall_empty.
Qed.

Lemma remap_monotone_and_bounded_witness :
  StronglySorted Qle
    (map RemappedSubtitle.startTime (remapSubtitlesToClips testClips testSubtitles))
  /\ Forall (fun r => (RemappedSubtitle.endTime r
                       <= Remap.currentOffset (Remap.run [clipE01] testSubtitles)
                          + (ClipDefinition.endTime clipE02
                             - ClipDefinition.startTime clipE02))%Q)
            (emittedFor testSubtitles [clipE01] clipE02).
Proof.
  split.
  - apply (proj1 (remap_monotone_and_bounded testSubtitles testClips)
             testClips_wellFormed testSubtitles_chronological).
  - apply (proj2 (remap_monotone_and_bounded testSubtitles testClips)
             [clipE01] clipE02 [] eq_refl).
Defined.

(** C2, as stated, fails: with a subtitle list that is not in time order the
    output start times decrease (5 then 1), although the single clip and both
    entries satisfy the data-model invariants. *)
Lemma remap_not_monotone_on_shuffled_input :
  wellFormedClips [wholeClip]
  /\ map RemappedSubtitle.startTime
       (remapSubtitlesToClips [wholeClip] shuffledSubtitles)
     = [0 + (5 - 0); 0 + (1 - 0)]%Q
  /\ ~ StronglySorted Qle
        (map RemappedSubtitle.startTime
           (remapSubtitlesToClips [wholeClip] shuffledSubtitles)).
Proof.
  split; [repeat constructor; by vm_compute|].
  split; [reflexivity|].
  intros H. apply StronglySorted_inv in H as [_ H].
  apply Forall_cons in H as [H _]. vm_compute in H. by apply H.
Qed.

(** The two data-model invariants assumed by the ordering theorem are needed
    as well: a clip with [endTime < startTime] moves the offset back, and an
    entry with [endTime < startTime] can start after its clip ends. *)
Example remap_order_needs_invariants :
  (map RemappedSubtitle.startTime
     (remapSubtitlesToClips backwardClips backwardClipSubtitles)
   = [0 + (9 - 0); 0 + (10 - 0) + (0 - 10) + (0 - 0)])%Q
  /\ (map RemappedSubtitle.startTime
        (remapSubtitlesToClips
           [ ClipDefinition.mk "S01E01" "e01.mp4" 0 10 1;
             ClipDefinition.mk "S01E02" "e02.mp4" 0 10 2 ]
           backwardEntrySubtitles)
      = [0 + (20 - 0); 0 + (10 - 0) + (0 - 0)])%Q.
Proof. split; reflexivity. Qed.

(** ** Strings *)

Section StringFacts.

Lemma app_nil_s (b : string) : EmptyString +:+ b = b.
Proof. reflexivity. Qed.

Lemma app_cons_s x (a b : string) : String x a +:+ b = String x (a +:+ b).
Proof. reflexivity. Qed.

Ltac unapp := rewrite ?app_nil_s, ?app_cons_s; simpl.

Lemma app_assoc_s (a b c : string) : (a +:+ b) +:+ c = a +:+ (b +:+ c).
Proof. induction a as [|x a IH]; unapp; [done | by rewrite IH]. Qed.

Lemma length_app_s (a b : string) :
  String.length (a +:+ b) = (String.length a + String.length b)%nat.
Proof. induction a as [|x a IH]; unapp; [done | by rewrite IH]. Qed.

Lemma length_replicate n c : String.length (JS.replicate n c) = n.
Proof. induction n as [|n IH]; simpl; [done | by rewrite IH]. Qed.

Lemma countChar_app c a b :
  countChar c (a +:+ b) = (countChar c a + countChar c b)%nat.
Proof. induction a as [|x a IH]; unapp; [done | rewrite IH; lia]. Qed.

Lemma split_length sep s :
  length (JS.split sep s) = S (countChar sep s).
Proof.
  induction s as [|c s IH]; simpl; [done|].
  destruct (Ascii.eqb c sep); simpl; [by rewrite IH|].
  destruct (JS.split sep s); simpl in *; [done | by rewrite IH].
Qed.

Lemma countChar_replaceFirst c pattern replacement s :
  c <> pattern -> c <> replacement ->
  countChar c (JS.replaceFirst pattern replacement s) = countChar c s.
Proof.
  intros Hp Hr. induction s as [|d s IH]; simpl; [done|].
  destruct (Ascii.eqb d pattern) eqn:E; simpl.
  - apply Ascii.eqb_eq in E as ->.
    apply Ascii.eqb_neq in Hp, Hr.
    rewrite (Ascii.eqb_sym replacement c), (Ascii.eqb_sym pattern c).
    by rewrite Hp, Hr.
  - by rewrite IH.
Qed.

Lemma split_without sep a :
  countChar sep a = O -> JS.split sep a = [a].
Proof.
  induction a as [|x a IH]; simpl; [done|].
  destruct (Ascii.eqb x sep); [done|]. simpl. intros H. by rewrite IH.
Qed.

Lemma split_app sep a b :
  countChar sep a = O ->
  JS.split sep (a +:+ String sep b) = a :: JS.split sep b.
Proof.
  induction a as [|x a IH]; unapp.
  - by rewrite Ascii.eqb_refl.
  - destruct (Ascii.eqb x sep); [done|]. simpl. intros H. by rewrite IH.
Qed.

Lemma replaceFirst_app pattern replacement a b :
  countChar pattern a = O ->
  JS.replaceFirst pattern replacement (a +:+ String pattern b)
  = a +:+ String replacement b.
Proof.
  induction a as [|x a IH]; unapp.
  - by rewrite Ascii.eqb_refl.
  - destruct (Ascii.eqb x pattern); [done|]. simpl. intros H. by rewrite IH.
Qed.

Lemma replaceFirst_without pattern replacement a :
  countChar pattern a = O -> JS.replaceFirst pattern replacement a = a.
Proof.
  induction a as [|x a IH]; simpl; [done|].
  destruct (Ascii.eqb x pattern); [done|]. simpl. intros H. by rewrite IH.
Qed.

Lemma digit_cases c :
  JS.isDigit c = true ->
  Ascii.eqb c ":" = false /\ Ascii.eqb c "," = false /\ Ascii.eqb c "." = false
  /\ Ascii.eqb c "-" = false /\ Ascii.eqb c "+" = false
  /\ JS.isWhiteSpace c = false /\ 0 <= JS.digitValue c <= 9.
Proof.
  destruct c as [[] [] [] [] [] [] [] []]; vm_compute; intros H;
    try discriminate H; repeat split; congruence.
Qed.

Lemma allDigits_app a b :
  allDigits (a +:+ b) = allDigits a && allDigits b.
Proof. induction a as [|x a IH]; unapp; [done|]. by rewrite IH, andb_assoc. Qed.

Lemma allDigits_countChar c a :
  JS.isDigit c = false -> allDigits a = true -> countChar c a = O.
Proof.
  intros Hc. induction a as [|x a IH]; simpl; [done|].
  intros [Hx Ha]%andb_true_iff.
  destruct (Ascii.eqb x c) eqn:E; [|by apply IH].
  apply Ascii.eqb_eq in E as ->. congruence.
Qed.

Lemma parseInt_digits a :
  allDigits a = true -> a <> EmptyString ->
  JS.parseInt a = JS.Num (inject_Z (decimal a)).
Proof.
  destruct a as [|x a]; [done|]. simpl. intros [Hx Ha]%andb_true_iff _.
  destruct (digit_cases x Hx) as (_ & _ & _ & Hm & Hp & Hw & _).
  unfold JS.parseInt. simpl. rewrite Hw.
  apply Ascii.eqb_neq in Hm, Hp.
  destruct x as [[] [] [] [] [] [] [] []]; try congruence;
    simpl; rewrite ?Hx; unfold decimal; simpl;
    try (destruct (JS.digitsValue _ a); reflexivity); discriminate Hx.
Qed.

Lemma app_nil_r_s (a : string) : a +:+ EmptyString = a.
Proof. induction a as [|x a IH]; unapp; [done | by rewrite IH]. Qed.

Lemma padEnd_long n c a :
  (n <= String.length a)%nat -> JS.padEnd n c a = a.
Proof.
  intros H. unfold JS.padEnd.
  replace (n - String.length a)%nat with O by lia. apply app_nil_r_s.
Qed.

(** A timestamp made of four digit fields: what the parser computes. *)
Lemma srtTimeToSeconds_fields hh mm ss fff sep :
  allDigits hh = true -> allDigits mm = true -> allDigits ss = true ->
  allDigits fff = true ->
  hh <> EmptyString -> mm <> EmptyString -> ss <> EmptyString ->
  (3 <= String.length fff)%nat ->
  sep = ","%char \/ sep = "."%char ->
  srtTimeToSeconds
    (hh +:+ String ":" (mm +:+ String ":" (ss +:+ String sep fff)))
  = Return
      (JS.Num (inject_Z (decimal hh) * 3600 + inject_Z (decimal mm) * 60
               + inject_Z (decimal ss) + inject_Z (decimal fff) / 1000)%Q).
Proof.
  intros Hh Hm Hs Hf Nh Nm Ns Lf Hsep.
  assert (Nf : fff <> EmptyString) by (destruct fff; simpl in Lf; [lia | done]).
  assert (Cd : forall c a, JS.isDigit c = false -> allDigits a = true ->
                           countChar c a = O)
    by (intros; by apply allDigits_countChar).
  unfold srtTimeToSeconds.
  assert (E : JS.replaceFirst "," "."
                (hh +:+ String ":" (mm +:+ String ":" (ss +:+ String sep fff)))
              = hh +:+ String ":" (mm +:+ String ":" (ss +:+ String "." fff))).
  { destruct Hsep as [-> | ->].
    - replace (hh +:+ String ":" (mm +:+ String ":" (ss +:+ String "," fff)))
        with ((hh +:+ String ":" (mm +:+ String ":" ss)) +:+ String "," fff)
        by (rewrite !app_assoc_s, !app_cons_s, !app_assoc_s, !app_cons_s; done).
      rewrite replaceFirst_app.
      + rewrite !app_assoc_s, !app_cons_s, !app_assoc_s, !app_cons_s; done.
      + rewrite !countChar_app. simpl. rewrite !countChar_app. simpl.
        by rewrite !(Cd ","%char).
    - apply replaceFirst_without.
      rewrite !countChar_app. simpl. rewrite !countChar_app. simpl.
      rewrite !countChar_app. simpl. by rewrite !(Cd ","%char). }
  rewrite E.
  rewrite split_app by (by apply Cd).
  rewrite split_app by (by apply Cd).
  rewrite split_without
    by (rewrite countChar_app; simpl; by rewrite !(Cd ":"%char)).
  rewrite split_app by (by apply Cd).
  rewrite split_without by (by apply Cd).
  simpl. rewrite padEnd_long by done.
  by rewrite !parseInt_digits.
Qed.

End StringFacts.

(** ** Decimal rendering *)

Section DecimalFacts.

Lemma digitChar_spec d :
  0 <= d <= 9 ->
  JS.isDigit (JS.digitChar d) = true /\ JS.digitValue (JS.digitChar d) = d.
Proof.
  intros H.
  assert (C : d = 0 \/ d = 1 \/ d = 2 \/ d = 3 \/ d = 4 \/ d = 5 \/ d = 6
              \/ d = 7 \/ d = 8 \/ d = 9) by lia.
  repeat (destruct C as [-> | C]; [by vm_compute|]). subst d. by vm_compute.
Qed.

Lemma digitsOf_spec fuel :
  forall n acc,
    0 <= n < 2 ^ Z.of_nat fuel ->
    allDigits acc = true ->
    allDigits (JS.digitsOf fuel n acc) = true
    /\ JS.digitsValue 0 (JS.digitsOf fuel n acc) = JS.digitsValue n acc.
Proof.
  induction fuel as [|fuel IH]; intros n acc Hn Hacc.
  - simpl in *. assert (n = 0) as -> by lia. done.
  - assert (Hd : 0 <= n mod 10 <= 9) by (pose proof (Z.mod_pos_bound n 10); lia).
    destruct (digitChar_spec _ Hd) as [D1 D2].
    assert (Hacc' : allDigits (String (JS.digitChar (n mod 10)) acc) = true)
      by (simpl; by rewrite D1, Hacc).
    assert (Hval : JS.digitsValue (n / 10)
                     (String (JS.digitChar (n mod 10)) acc)
                   = JS.digitsValue n acc).
    { simpl. rewrite D1, D2. f_equal. pose proof (Z.div_mod n 10). lia. }
    simpl JS.digitsOf. destruct (n / 10 =? 0) eqn:E.
    + apply Z.eqb_eq in E. split; [done|].
      rewrite <- Hval, E. simpl. by rewrite D1.
    + destruct (IH (n / 10) (String (JS.digitChar (n mod 10)) acc)) as [I1 I2];
        [|done|].
      * rewrite Nat2Z.inj_succ, Z.pow_succ_r in Hn by lia.
        split; [apply Z.div_pos; lia|].
        apply Z.div_lt_upper_bound; lia.
      * split; [done|]. by rewrite I2.
Qed.

Lemma digitsOf_length fuel :
  forall n acc,
    (String.length acc <= String.length (JS.digitsOf fuel n acc))%nat.
Proof.
  induction fuel as [|fuel IH]; intros n acc; simpl; [done|].
  destruct (n / 10 =? 0); simpl; [lia|].
  specialize (IH (n / 10) (String (JS.digitChar (n mod 10)) acc)).
  simpl in IH. lia.
Qed.

(** Printing a non-negative integer yields its decimal digits. *)
Lemma toString_nonneg n :
  0 <= n ->
  allDigits (JS.toString n) = true
  /\ decimal (JS.toString n) = n
  /\ JS.toString n <> EmptyString.
Proof.
  intros Hn. unfold JS.toString.
  destruct (n <? 0) eqn:E; [apply Z.ltb_lt in E; lia|].
  assert (Hb : 0 <= n < 2 ^ Z.of_nat (S (Z.to_nat (Z.log2 n)))).
  { split; [done|]. rewrite Nat2Z.inj_succ, Z2Nat.id by apply Z.log2_nonneg.
    destruct (Z.eq_dec n 0) as [->|Hz]; [done|].
    apply Z.log2_spec. lia. }
  destruct (digitsOf_spec _ n EmptyString Hb eq_refl) as [H1 H2].
  split; [done|]. split; [exact H2|].
  simpl. destruct (n / 10 =? 0); [done|].
  intros Hempty.
  pose proof (digitsOf_length (Z.to_nat (Z.log2 n)) (n / 10)
                (String (JS.digitChar (n mod 10)) EmptyString)) as L.
  rewrite Hempty in L. simpl in L. lia.
Qed.

Lemma zeros_digits m s :
  allDigits s = true ->
  allDigits (JS.replicate m "0" +:+ s) = true
  /\ decimal (JS.replicate m "0" +:+ s) = decimal s.
Proof.
  intros Hs. induction m as [|m [IH1 IH2]]; [done|].
  change (JS.replicate (S m) "0" +:+ s)
    with (String "0" (JS.replicate m "0" +:+ s)).
  split; [simpl; exact IH1 | exact IH2].
Qed.

Lemma padStart_zero_digits k s :
  allDigits s = true ->
  allDigits (JS.padStart k "0" s) = true
  /\ decimal (JS.padStart k "0" s) = decimal s
  /\ (k <= String.length (JS.padStart k "0" s))%nat
  /\ (s <> EmptyString -> JS.padStart k "0" s <> EmptyString).
Proof.
  intros Hs. unfold JS.padStart.
  destruct (zeros_digits (k - String.length s) s Hs) as [H1 H2].
  split; [done|]. split; [done|]. split.
  - rewrite length_app_s, length_replicate. lia.
  - intros Hne Hempty. apply (f_equal String.length) in Hempty.
    rewrite length_app_s in Hempty. destruct s; [done|]. simpl in Hempty. lia.
Qed.

End DecimalFacts.

(** ** Timestamps *)

Section TimestampFacts.
Local Open Scope Q_scope.

Lemma floor_unique x (z : Z) :
  inject_Z z <= x -> x < inject_Z (z + 1) -> Qfloor x = z.
Proof.
  intros H1 H2.
  pose proof (Qfloor_le x) as F1. pose proof (Qlt_floor x) as F2.
  assert (A : (Qfloor x < z + 1)%Z) by (rewrite Zlt_Qlt; lra).
  assert (B : (z < Qfloor x + 1)%Z) by (rewrite Zlt_Qlt; lra).
  lia.
Qed.

Lemma floor_nonneg x : 0 <= x -> (0 <= Qfloor x)%Z.
Proof. intros H. apply (Qfloor_resp_le 0 x H). Qed.

Lemma truncate_nonneg x : 0 <= x -> JS.truncate x = Qfloor x.
Proof.
  destruct x as [n d]. unfold Qle; simpl. intros H.
  unfold JS.truncate; simpl. apply Z.quot_div_nonneg; lia.
Qed.

(** The fields printed by [secondsToSrtTime] for a non-negative time. *)
Lemma fields_of_nonneg x :
  0 <= x ->
  let hours := JS.floor (x / 3600) in
  let minutes := JS.floor (JS.rem x 3600 / 60) in
  let secs := JS.floor (JS.rem x 60) in
  let ms := JS.round (JS.rem x 1 * 1000) in
  (0 <= hours)%Z /\ (0 <= minutes)%Z /\ (0 <= secs)%Z /\ (0 <= ms)%Z
  /\ Qabs (inject_Z hours * 3600 + inject_Z minutes * 60 + inject_Z secs
           + inject_Z ms / 1000 - x) <= 1 # 1000.
Proof.
  intros Hx. unfold JS.floor, JS.round, JS.rem.
  assert (D1 : x / 3600 == x * (1 # 3600)) by reflexivity.
  assert (D2 : x / 60 == x * (1 # 60)) by reflexivity.
  assert (D3 : x / 1 == x) by (unfold Qdiv; change (/ 1) with 1; ring).
  rewrite !truncate_nonneg by (rewrite ?D1, ?D2, ?D3; lra).
  rewrite (Qfloor_comp _ _ D3).
  set (H := Qfloor (x / 3600)). set (K := Qfloor (x / 60)). set (F := Qfloor x).
  pose proof (Qfloor_le (x / 3600)) as H1. pose proof (Qlt_floor (x / 3600)) as H2.
  pose proof (Qfloor_le (x / 60)) as K1. pose proof (Qlt_floor (x / 60)) as K2.
  pose proof (Qfloor_le x) as F1. pose proof (Qlt_floor x) as F2.
  fold H in H1, H2. fold K in K1, K2. fold F in F1, F2.
  rewrite inject_Z_plus in H2, K2, F2. change (inject_Z 1) with 1 in *.
  rewrite D1 in H1, H2. rewrite D2 in K1, K2.
  assert (EM : Qfloor ((x - 3600 * inject_Z H) / 60) = (K - 60 * H)%Z).
  { apply floor_unique.
    - unfold Z.sub. rewrite inject_Z_plus, inject_Z_opp, inject_Z_mult.
      change (inject_Z 60) with 60.
      assert (E : (x - 3600 * inject_Z H) / 60
                  == (x - 3600 * inject_Z H) * (1 # 60)) by reflexivity.
      rewrite E. lra.
    - unfold Z.sub. rewrite !inject_Z_plus, inject_Z_opp, inject_Z_mult.
      change (inject_Z 60) with 60. change (inject_Z 1) with 1.
      assert (E : (x - 3600 * inject_Z H) / 60
                  == (x - 3600 * inject_Z H) * (1 # 60)) by reflexivity.
      rewrite E. lra. }
  assert (ES : Qfloor (x - 60 * inject_Z K) = (F - 60 * K)%Z).
  { apply floor_unique.
    - unfold Z.sub. rewrite inject_Z_plus, inject_Z_opp, inject_Z_mult.
      change (inject_Z 60) with 60. lra.
    - unfold Z.sub. rewrite !inject_Z_plus, inject_Z_opp, inject_Z_mult.
      change (inject_Z 60) with 60. change (inject_Z 1) with 1. lra. }
  set (MS := Qfloor ((x - 1 * inject_Z F) * 1000 + (1 # 2))).
  pose proof (Qfloor_le ((x - 1 * inject_Z F) * 1000 + (1 # 2))) as M1.
  pose proof (Qlt_floor ((x - 1 * inject_Z F) * 1000 + (1 # 2))) as M2.
  fold MS in M1, M2. rewrite inject_Z_plus in M2. change (inject_Z 1) with 1 in M2.
  split; [apply floor_nonneg; rewrite D1; lra|].
  split; [rewrite EM; assert (A : (0 <= Qfloor ((x - 3600 * inject_Z H) / 60))%Z);
          [apply floor_nonneg;
           assert (E : (x - 3600 * inject_Z H) / 60
                       == (x - 3600 * inject_Z H) * (1 # 60)) by reflexivity;
           rewrite E; lra
          | by rewrite EM in A]|].
  split; [rewrite ES; assert (A : (0 <= Qfloor (x - 60 * inject_Z K))%Z);
          [apply floor_nonneg; lra | by rewrite ES in A]|].
  split; [apply floor_nonneg; lra|].
  rewrite EM, ES.
  unfold Z.sub. rewrite !inject_Z_plus, !inject_Z_opp, !inject_Z_mult.
  change (inject_Z 60) with 60.
  assert (E : inject_Z MS / 1000 == inject_Z MS * (1 # 1000)) by reflexivity.
  rewrite E.
  apply Qabs_Qle_condition. split; lra.
Qed.

End TimestampFacts.

Section CodecTheorems.

(** C4.  Formatting a non-negative time and parsing the text back returns a
    number within one millisecond of the original. *)
Theorem timestamp_round_trip (seconds : Q) :
  (0 <= seconds)%Q ->
  exists v,
    srtTimeToSeconds (secondsToSrtTime seconds) = Return (JS.Num v)
    /\ (Qabs (v - seconds) <= 1 # 1000)%Q.
Proof.
  intros Hs. destruct (fields_of_nonneg seconds Hs) as (Hh & Hm & Hsec & Hms & Habs).
  unfold secondsToSrtTime.
  set (hours := JS.floor (seconds / 3600)) in *.
  set (minutes := JS.floor (JS.rem seconds 3600 / 60)) in *.
  set (secs := JS.floor (JS.rem seconds 60)) in *.
  set (ms := JS.round (JS.rem seconds 1 * 1000)) in *.
  destruct (toString_nonneg hours Hh) as (A1 & A2 & A3).
  destruct (toString_nonneg minutes Hm) as (B1 & B2 & B3).
  destruct (toString_nonneg secs Hsec) as (C1 & C2 & C3).
  destruct (toString_nonneg ms Hms) as (D1 & D2 & D3).
  destruct (padStart_zero_digits 2 _ A1) as (PA1 & PA2 & _ & PA4).
  destruct (padStart_zero_digits 2 _ B1) as (PB1 & PB2 & _ & PB4).
  destruct (padStart_zero_digits 2 _ C1) as (PC1 & PC2 & _ & PC4).
  destruct (padStart_zero_digits 3 _ D1) as (PD1 & PD2 & PD3 & _).
  rewrite !app_cons_s, !app_nil_s.
  rewrite srtTimeToSeconds_fields; auto.
  rewrite PA2, PB2, PC2, PD2, A2, B2, C2, D2.
  eexists. split; [reflexivity | exact Habs].
Qed.

Lemma isTimestamp_inv t :
  isTimestamp t = true ->
  exists hh mm ss fff sep,
    t = hh +:+ String ":" (mm +:+ String ":" (ss +:+ String sep fff))
    /\ (allDigits hh = true /\ String.length hh = 2%nat)
    /\ (allDigits mm = true /\ String.length mm = 2%nat)
    /\ (allDigits ss = true /\ String.length ss = 2%nat)
    /\ (allDigits fff = true /\ String.length fff = 3%nat)
    /\ (sep = ","%char \/ sep = "."%char)
    /\ timestampValue t
       = (inject_Z (decimal hh) * 3600 + inject_Z (decimal mm) * 60
          + inject_Z (decimal ss) + inject_Z (decimal fff) / 1000)%Q.
Proof.
  unfold isTimestamp, timestampValue.
  do 12 (destruct t as [|? t]; [discriminate|]).
  destruct t; [|discriminate]. simpl.
  rewrite !andb_true_iff, orb_true_iff, !Ascii.eqb_eq.
  intros (((((((((((H1 & H2) & ->) & M1) & M2) & ->) & S1) & S2) & Hsep) & F1) & F2) & F3).
  eexists (String _ (String _ EmptyString)), (String _ (String _ EmptyString)),
          (String _ (String _ EmptyString)),
          (String _ (String _ (String _ EmptyString))), _.
  split; [reflexivity|].
  unfold decimal. simpl.
  rewrite H1, H2, M1, M2, S1, S2, F1, F2, F3. simpl.
  repeat split; try done.
  repeat f_equal; lia.
Qed.

(** C5, as amended.  A string of the form HH:MM:SS, ',' or '.', mmm is
    parsed to h*3600 + m*60 + s + ms/1000; the parser throws exactly when
    the input does not have three ':'-separated fields, that is, when it
    does not contain exactly two ':'. *)
Theorem srtTimeToSeconds_pattern_and_field_count :
  (forall t, isTimestamp t = true ->
             srtTimeToSeconds t = Return (JS.Num (timestampValue t)))
  /\ (forall t, (exists message, srtTimeToSeconds t = Throw message)
                <-> countChar ":" t <> 2%nat).
Proof.
  split.
  - intros t Ht.
    destruct (isTimestamp_inv t Ht)
      as (hh & mm & ss & fff & sep & -> & [Hh Lh] & [Hm Lm] & [Hs Ls] & [Hf Lf]
          & Hsep & ->).
    apply srtTimeToSeconds_fields; auto;
      try (intros ->; simpl in *; discriminate); lia.
  - intros t. unfold srtTimeToSeconds.
    pose proof (split_length ":" (JS.replaceFirst "," "." t)) as L.
    rewrite countChar_replaceFirst in L by done.
    destruct (JS.split ":" (JS.replaceFirst "," "." t)) as [|p0 [|p1 [|p2 [|p3 rest]]]];
      simpl in L.
    + done.
    + split; [intros _; lia | eauto].
    + split; [intros _; lia | eauto].
    + split; [intros [m Hm]; discriminate | lia].
    + split; [intros _; lia | eauto].
Qed.

End CodecTheorems.

Lemma timestamp_round_trip_witness :
  exists v,
    srtTimeToSeconds (secondsToSrtTime (10891 # 2)) = Return (JS.Num v)
    /\ (Qabs (v - (10891 # 2)) <= 1 # 1000)%Q.
Proof. apply (timestamp_round_trip (10891 # 2)). by vm_compute. Defined.

Lemma srtTimeToSeconds_pattern_and_field_count_witness :
  srtTimeToSeconds "01:30:45,500"
  = Return (JS.Num (timestampValue "01:30:45,500")).
Proof.
  apply (proj1 srtTimeToSeconds_pattern_and_field_count "01:30:45,500").
  reflexivity.
Defined.

(** C5, as stated, fails: "1:2:3" is not of the form HH:MM:SS,mmm, yet the
    parser does not throw and returns 3723; "a:b:c" yields NaN. *)
Lemma srtTimeToSeconds_accepts_unpadded_fields :
  isTimestamp "1:2:3" = false
  /\ (exists v, srtTimeToSeconds "1:2:3" = Return (JS.Num v) /\ (v == 3723)%Q)
  /\ isTimestamp "a:b:c" = false
  /\ srtTimeToSeconds "a:b:c" = Return JS.NaN.
Proof.
  split; [reflexivity|]. split; [|split; reflexivity].
  eexists. split; reflexivity.
Qed.

(** The repository's tests of the parser and the formatter. *)
Example srtTimeToSeconds_tests :
  (exists v, srtTimeToSeconds "01:30:45,500" = Return (JS.Num v) /\ (v == 5445.5)%Q)
  /\ (exists v, srtTimeToSeconds "00:00:01.500" = Return (JS.Num v) /\ (v == 1.5)%Q)
  /\ (exists m, srtTimeToSeconds "invalid" = Throw m)
  /\ (exists m, srtTimeToSeconds "00:00" = Throw m).
Proof. repeat split; eexists; try split; reflexivity. Qed.

Example secondsToSrtTime_tests :
  secondsToSrtTime 0 = "00:00:00,000"
  /\ secondsToSrtTime 3600 = "01:00:00,000"
  /\ secondsToSrtTime 5445.5 = "01:30:45,500"
  /\ secondsToSrtTime 0.001 = "00:00:00,001".
Proof. repeat split; reflexivity. Qed.

(** ** The overall progress metric *)

Section ProgressTheorems.

Lemma relevantStages_A :
  relevantStages ModeA =
  [ pending; validating; parsing; analyzing; generating_clips;
    processing_video; generating_srt; completed ].
Proof. reflexivity. Qed.

Lemma relevantStages_B : relevantStages ModeB = stages.
Proof. reflexivity. Qed.

Lemma indexOf_failed mode : indexOf (relevantStages mode) failed = -1.
Proof. destruct mode; reflexivity. Qed.

Lemma indexOf_completed mode :
  indexOf (relevantStages mode) completed = segments mode.
Proof. destruct mode; reflexivity. Qed.

Lemma segments_length mode :
  Z.of_nat (length (relevantStages mode)) - 1 = segments mode.
Proof. destruct mode; reflexivity. Qed.

(** C7.  The metric is exactly 100 for a completed job and at most 99 for
    every other status; the stage list has 7 segments in mode A and 9 in
    mode B, and a job in a stage of the list other than [completed] is at
    min(99, round((index + stageProgress/100) * 100/segments)). *)
Theorem overall_progress_segments (job : Job.t) :
  let mode := JobConfig.mode (Job.config job) in
  let stageProgress := JobProgress.stageProgress (Job.progress job) in
  (Job.status job = completed -> calculateOverallProgress job = 100%Q)
  /\ (Job.status job <> completed -> (calculateOverallProgress job <= 99)%Q)
  /\ Z.of_nat (length (relevantStages mode)) - 1 = segments mode
  /\ segments ModeA = 7 /\ segments ModeB = 9
  /\ (forall i,
        Job.status job <> completed ->
        relevantStages mode !! i = Some (Job.status job) ->
        let stageWeight := (100 / inject_Z (segments mode))%Q in
        calculateOverallProgress job
        = Qmin 99
            (inject_Z
               (JS.round (inject_Z (Z.of_nat i) * stageWeight
                          + stageProgress / 100 * stageWeight)))).
Proof.
  intros mode stageProgress. unfold calculateOverallProgress.
  fold mode. fold stageProgress.
  split; [|split; [|split; [apply segments_length | split; [done | split; [done|]]]]].
  - intros ->. rewrite indexOf_completed. by destruct mode.
  - intros Hne.
    destruct (indexOf (relevantStages mode) (Job.status job) =? -1) eqn:E;
      [lra|].
    destruct (decide (Job.status job = failed)) as [Hf|_].
    + rewrite Hf, indexOf_failed in E. discriminate E.
    + destruct (decide (Job.status job = completed)); [done|].
      apply Q.le_min_l.
  - subst stageProgress mode.
    destruct job as [[mode] status [stage sp done_]]. simpl.
    intros i Hne Hi.
    destruct mode;
      repeat (destruct i as [|i];
              [injection Hi as <-; first [by destruct Hne | reflexivity]|]);
      discriminate Hi.
Qed.

(** C10.  A failed job is reported at 0 whatever its stage progress:
    [failed] is not in the stage list, so the index lookup yields -1 and the
    function returns 0; the branch returning [stageProgress] is never
    reached, since a status found in the list is never [failed]. *)
Theorem failed_progress_is_zero (job : Job.t) :
  let mode := JobConfig.mode (Job.config job) in
  (Job.status job = failed ->
     indexOf (relevantStages mode) (Job.status job) = -1
     /\ calculateOverallProgress job = 0%Q)
  /\ (indexOf (relevantStages mode) (Job.status job) <> -1 ->
      Job.status job <> failed).
Proof.
  intros mode. split.
  - intros Hf. unfold calculateOverallProgress. fold mode.
    rewrite Hf, indexOf_failed. done.
  - intros Hi Hf. apply Hi. rewrite Hf. apply indexOf_failed.
Qed.

End ProgressTheorems.

Lemma overall_progress_segments_witness :
  calculateOverallProgress completedJob = 100%Q
  /\ (calculateOverallProgress runningJob <= 99)%Q
  /\ calculateOverallProgress runningJob
     = Qmin 99
         (inject_Z
            (JS.round (inject_Z (Z.of_nat 3) * (100 / inject_Z (segments ModeA))
                       + 50 / 100 * (100 / inject_Z (segments ModeA)))))%Q.
Proof.
  split; [|split].
  - apply (proj1 (overall_progress_segments completedJob)). reflexivity.
  - apply (proj1 (proj2 (overall_progress_segments runningJob))). discriminate.
  - apply (proj2 (proj2 (proj2 (proj2 (proj2
             (overall_progress_segments runningJob))))) 3%nat).
    + discriminate.
    + reflexivity.
Defined.

Lemma failed_progress_is_zero_witness :
  calculateOverallProgress failedJob = 0%Q
  /\ Job.status runningJob <> failed.
Proof.
  split.
  - apply (proj1 (failed_progress_is_zero failedJob)). reflexivity.
  - apply (proj2 (failed_progress_is_zero runningJob)). discriminate.
Defined.

Example overall_progress_values :
  (calculateOverallProgress runningJob == 50)%Q
  /\ (calculateOverallProgress failedJob == 0)%Q
  /\ (calculateOverallProgress
        (Job.mk (JobConfig.mk ModeB) mixing_audio
           (JobProgress.mk mixing_audio 100 [])) == 99)%Q.
Proof. repeat split; reflexivity. Qed.

(** ** The speech-synthesis text splitter *)

(** C6 fails on the code.  A text of 2005 characters without sentence
    punctuation or commas is one sentence and one comma part; the splitter
    keeps it whole, so the only chunk has 2004 characters, above
    [MAX_CHARS_PER_CHUNK]. *)
Theorem splitTextIntoChunks_oversized_chunk :
  String.length runOnNarration = 2005%nat
  /\ splitTextIntoChunks runOnNarration = [trim runOnNarration]
  /\ String.length (trim runOnNarration) = 2004%nat
  /\ ~ Forall (fun chunk => (String.length chunk <= MAX_CHARS_PER_CHUNK)%nat)
       (splitTextIntoChunks runOnNarration).
Proof.
  assert (E1 : splitTextIntoChunks runOnNarration = [trim runOnNarration])
    by (by vm_compute).
  assert (E2 : String.length (trim runOnNarration) = 2004%nat) by (by vm_compute).
  split; [by vm_compute|]. split; [exact E1|]. split; [exact E2|].
  rewrite E1. intros H. apply Forall_cons in H as [H _].
  rewrite E2 in H. unfold MAX_CHARS_PER_CHUNK in H. lia.
Qed.

Example splitTextIntoChunks_sentences :
  map String.length
    (splitTextIntoChunks
       (JS.replicate 1500 "a" +:+ ". " +:+ JS.replicate 1500 "b" +:+ ". "
        +:+ JS.replicate 2000 "c"))
  = [1501; 1501; 2000]%nat.
Proof. by vm_compute. Qed.

Example regex_split_examples :
  Regex.split sentenceBoundary "Hello. World!  How are you? "
  = ["Hello."; "World!"; "How are you?"; EmptyString]
  /\ Regex.split afterComma "a,b, c,,  d," = ["a,"; "b,"; "c,"; ","; "d,"].
Proof. split; reflexivity. Qed.

(** ** The episode identity resolver *)

Section ResolverFacts.

Lemma in_bind {A B} (m : Regex.matcher A) (k : A -> Regex.matcher B) s b r :
  In (b, r) (Regex.bind m k s) <->
  exists a r', In (a, r') (m s) /\ In (b, r) (k a r').
Proof.
  unfold Regex.bind. rewrite in_flat_map. split.
  - intros [[a r'] [H1 H2]]. eauto.
  - intros (a & r' & H1 & H2). exists (a, r'). eauto.
Qed.

Lemma in_charIf p s c r :
  In (c, r) (Regex.charIf p s) <-> s = String c r /\ p c = true.
Proof.
  unfold Regex.charIf. destruct s as [|d s]; simpl.
  - split; [done | by intros [? _]].
  - destruct (p d) eqn:E; simpl.
    + split.
      * intros [[= <- <-] | []]. done.
      * intros [[= <- <-] _]. by left.
    + split; [done|]. intros [[= <- <-] Hp]. congruence.
Qed.

Lemma digits12_group s g r : In (g, r) (Regex.digits12 s) -> group g.
Proof.
  unfold Regex.digits12. rewrite in_bind.
  intros (a & r' & [-> Ha]%in_charIf & H).
  unfold Regex.alt in H. apply in_app_iff in H as [H | H].
  - apply in_bind in H as (b & r'' & [-> Hb]%in_charIf & H).
    destruct H as [[= <- <-] | []]. unfold group; simpl. rewrite Ha, Hb. auto.
  - destruct H as [[= <- <-] | []]. unfold group; simpl. rewrite Ha. auto.
Qed.

Lemma search_In {A} (m : Regex.matcher A) s a :
  Regex.search m s = Some a -> exists s' r, In (a, r) (m s').
Proof.
  induction s as [|c s IH]; simpl.
  - destruct (m EmptyString) as [|[a' r] l] eqn:E; [done|].
    intros [= <-]. exists EmptyString, r. rewrite E. by left.
  - destruct (m (String c s)) as [|[a' r] l] eqn:E; [exact IH|].
    intros [= <-]. exists (String c s), r. rewrite E. by left.
Qed.

Lemma sPattern_groups s g1 g2 r :
  In ((g1, g2), r) (sPattern s) -> group g1 /\ group g2.
Proof.
  unfold sPattern. rewrite in_bind. intros (? & ? & _ & H).
  apply in_bind in H as (a & ? & Ha%digits12_group & H).
  apply in_bind in H as (? & ? & _ & H).
  apply in_bind in H as (b & ? & Hb%digits12_group & H).
  destruct H as [[= <- <- <-] | []]. done.
Qed.

Lemma xPattern_groups s g1 g2 r :
  In ((g1, g2), r) (xPattern s) -> group g1 /\ group g2.
Proof.
  unfold xPattern. rewrite in_bind.
  intros (a & ? & Ha%digits12_group & H).
  apply in_bind in H as (? & ? & _ & H).
  apply in_bind in H as (b & ? & Hb%digits12_group & H).
  destruct H as [[= <- <- <-] | []]. done.
Qed.

Lemma ePattern_group s g r : In (g, r) (ePattern s) -> group g.
Proof.
  unfold ePattern. rewrite in_bind. intros (? & ? & _ & H).
  apply in_bind in H as (? & ? & _ & H). by apply digits12_group in H.
Qed.

Lemma group_padded g :
  group g ->
  truthy g = true
  /\ exists d1 d2,
       JS.padStart 2 "0" g = String d1 (String d2 EmptyString)
       /\ JS.isDigit d1 = true /\ JS.isDigit d2 = true.
Proof.
  intros [Hd Hl].
  destruct g as [|a [|b [|c g]]]; simpl in *; try lia.
  - split; [done|]. exists "0"%char, a.
    rewrite andb_true_r in Hd. by rewrite Hd.
  - split; [done|]. exists a, b.
    apply andb_true_iff in Hd as [Ha Hb]. rewrite andb_true_r in Hb. done.
Qed.

(** First match wins: the identifier comes from the first of the three
    patterns that matches the file name. *)
Lemma extractEpisodeId_priority filename :
  match Regex.search sPattern filename with
  | Some (season, episode) =>
      extractEpisodeIdFromFilename filename
      = Some ("S" +:+ JS.padStart 2 "0" season +:+ "E"
              +:+ JS.padStart 2 "0" episode)
  | None =>
      match Regex.search xPattern filename with
      | Some (season, episode) =>
          extractEpisodeIdFromFilename filename
          = Some ("S" +:+ JS.padStart 2 "0" season +:+ "E"
                  +:+ JS.padStart 2 "0" episode)
      | None =>
          match Regex.search ePattern filename with
          | Some episode =>
              extractEpisodeIdFromFilename filename
              = Some ("S01E" +:+ JS.padStart 2 "0" episode)
          | None => extractEpisodeIdFromFilename filename = None
          end
      end
  end.
Proof.
  unfold extractEpisodeIdFromFilename.
  destruct (Regex.search sPattern filename) as [[g1 g2]|] eqn:Es.
  { apply search_In in Es as (? & ? & [H1 H2]%sPattern_groups).
    apply group_padded in H1 as [-> _], H2 as [-> _]. done. }
  destruct (Regex.search xPattern filename) as [[g1 g2]|] eqn:Ex.
  { apply search_In in Ex as (? & ? & [H1 H2]%xPattern_groups).
    apply group_padded in H1 as [-> _], H2 as [-> _]. done. }
  destruct (Regex.search ePattern filename) as [g|] eqn:Ee; [|done].
  apply search_In in Ee as (? & ? & H%ePattern_group).
  apply group_padded in H as [-> _]. done.
Qed.

(** X11.  Every identifier produced is S, two digits, E, two digits. *)
Lemma extractEpisodeId_shape filename id :
  extractEpisodeIdFromFilename filename = Some id -> isEpisodeId id = true.
Proof.
  pose proof (extractEpisodeId_priority filename) as P.
  destruct (Regex.search sPattern filename) as [[g1 g2]|] eqn:Es.
  { rewrite P. intros [= <-].
    apply search_In in Es as (? & ? & [H1 H2]%sPattern_groups).
    apply group_padded in H1 as (_ & a & b & -> & Ha & Hb).
    apply group_padded in H2 as (_ & c & d & -> & Hc & Hd).
    unfold isEpisodeId. simpl. by rewrite Ha, Hb, Hc, Hd. }
  destruct (Regex.search xPattern filename) as [[g1 g2]|] eqn:Ex.
  { rewrite P. intros [= <-].
    apply search_In in Ex as (? & ? & [H1 H2]%xPattern_groups).
    apply group_padded in H1 as (_ & a & b & -> & Ha & Hb).
    apply group_padded in H2 as (_ & c & d & -> & Hc & Hd).
    unfold isEpisodeId. simpl. by rewrite Ha, Hb, Hc, Hd. }
  destruct (Regex.search ePattern filename) as [g|] eqn:Ee.
  - rewrite P. intros [= <-].
    apply search_In in Ee as (? & ? & H%ePattern_group).
    apply group_padded in H as (_ & a & b & -> & Ha & Hb).
    unfold isEpisodeId. simpl. by rewrite Ha, Hb.
  - rewrite P. done.
Qed.

End ResolverFacts.

(** The four file names of the specification, and the repository's tests. *)
Example extractEpisodeId_examples :
  extractEpisodeIdFromFilename "Show.S01E02.720p.mkv" = Some "S01E02"
  /\ extractEpisodeIdFromFilename "Show.1x02.mkv" = Some "S01E02"
  /\ extractEpisodeIdFromFilename "E02.srt" = Some "S01E02"
  /\ extractEpisodeIdFromFilename "randomfile.mp4" = None.
Proof. repeat split; reflexivity. Qed.

Example extractEpisodeId_tests :
  map extractEpisodeIdFromFilename
    [ "Series.S01E01.720p.mkv"; "s02e15.srt"; "Show S1E5.mp4";
      "Series.1x01.720p.mkv"; "Show.02x15.srt"; "Series Episode 01.mp4";
      "E05.srt"; "random_file.mp4"; "video.mkv" ]
  = [ Some "S01E01"; Some "S02E15"; Some "S01E05"; Some "S01E01"; Some "S02E15";
      Some "S01E01"; Some "S01E05"; None; None ].
Proof. reflexivity. Qed.

(** A file name matched by several patterns takes the first in the list. *)
Example extractEpisodeId_tie_break :
  extractEpisodeIdFromFilename "1x05.S02E03.mkv" = Some "S02E03"
  /\ extractEpisodeIdFromFilename "E07.1X05.mkv" = Some "S01E05".
Proof. split; reflexivity. Qed.

(** C8 fails on the code in its case-insensitivity: the word of the third
    pattern is matched in lower case only, so the same file name with the word
    in capitals is not resolved. *)
Theorem extractEpisodeId_upper_case_word :
  extractEpisodeIdFromFilename "Show.Episode 02.mkv" = Some "S01E02"
  /\ extractEpisodeIdFromFilename "Show.episode 02.mkv" = Some "S01E02"
  /\ extractEpisodeIdFromFilename "Show.EPISODE 02.mkv" = None.
Proof. repeat split; reflexivity. Qed.

(** * Further properties *)

(** ** The clip timeline remapper: missing episodes, provenance, composition *)

Section RemapMore.
Context (episodeSubtitles : gmap string (list SubtitleEntry.t)).

(** X1.  A clip of an episode that has no subtitles in the map emits
    nothing, yet the output offset still advances by the clip's duration. *)
Theorem remap_missing_episode pre clip :
  episodeSubtitles !! ClipDefinition.episodeId clip = None ->
  remapSubtitlesToClips (pre ++ [clip]) episodeSubtitles
  = remapSubtitlesToClips pre episodeSubtitles
  /\ Remap.currentOffset (Remap.run (pre ++ [clip]) episodeSubtitles)
     = (Remap.currentOffset (Remap.run pre episodeSubtitles)
        + (ClipDefinition.endTime clip - ClipDefinition.startTime clip))%Q
  /\ Remap.index (Remap.run (pre ++ [clip]) episodeSubtitles)
     = Remap.index (Remap.run pre episodeSubtitles).
Proof.
  intros Hnone. unfold remapSubtitlesToClips.
  rewrite run_snoc, processClip_unfold.
  unfold Remap.clipSubtitles, Remap.entriesOf. rewrite Hnone. simpl.
  rewrite app_nil_r, Z.add_0_r. done.
Qed.

Lemma clipBlock_elem clip offset idx subs r :
  r ∈ clipBlock clip offset idx subs ->
  exists entry,
    entry ∈ subs
    /\ RemappedSubtitle.text r = SubtitleEntry.text entry
    /\ RemappedSubtitle.originalEpisodeId r = ClipDefinition.episodeId clip
    /\ RemappedSubtitle.originalStartTime r = SubtitleEntry.startTime entry.
Proof.
  revert idx. induction subs as [|s rest IH]; intros idx; simpl.
  - by intros ?%elem_of_nil.
  - intros [-> | H]%elem_of_cons.
    + exists s. simpl. split; [by left | done].
    + destruct (IH _ H) as (e & He & ?). exists e. split; [by right | done].
Qed.

(** X2.  Nothing is invented: every output entry carries the text and the
    start time of an entry stored under its [originalEpisodeId], an entry
    that lies within a clip of that episode. *)
Theorem remap_provenance clips r :
  r ∈ remapSubtitlesToClips clips episodeSubtitles ->
  exists clip entries entry,
    clip ∈ clips
    /\ ClipDefinition.episodeId clip = RemappedSubtitle.originalEpisodeId r
    /\ episodeSubtitles !! RemappedSubtitle.originalEpisodeId r = Some entries
    /\ entry ∈ entries
    /\ (ClipDefinition.startTime clip <= SubtitleEntry.startTime entry)%Q
    /\ (SubtitleEntry.endTime entry <= ClipDefinition.endTime clip)%Q
    /\ RemappedSubtitle.text r = SubtitleEntry.text entry
    /\ RemappedSubtitle.originalStartTime r = SubtitleEntry.startTime entry.
Proof.
  induction clips as [|clip pre IH] using rev_ind.
  - by intros ?%elem_of_nil.
  - unfold remapSubtitlesToClips. rewrite run_snoc, processClip_unfold. simpl.
    intros [H | H]%elem_of_app.
    + destruct (IH H) as (c & es & e & Hc & Hrest).
      exists c, es, e. split; [apply elem_of_app; by left | done].
    + apply clipBlock_elem in H as (e & He & Ht & Hid & Hs).
      apply clipSubtitles_spec in He as (Hin & H1 & H2).
      unfold Remap.entriesOf in Hin.
      destruct (episodeSubtitles !! ClipDefinition.episodeId clip) as [es|] eqn:E;
        simpl in Hin; [|by apply elem_of_nil in Hin].
      exists clip, es, e. split; [apply elem_of_app; right; by left|].
      rewrite Hid. done.
Qed.





End RemapMore.

(** ** The overlap helper *)

Section OverlapFacts.
Local Open Scope Q_scope.

Lemma divide_pos x y :
  0 < y -> divide x y = QuotFin (x / y).
Proof.
  intros Hy. unfold divide.
  destruct (Qeq_bool y 0) eqn:E; [|done].
  apply Qeq_bool_iff in E. lra.
Qed.

Lemma Qle_div_pos m x y : 0 < y -> (m <= x / y <-> m * y <= x).
Proof.
  intros Hy. split; intros H.
  - apply (Qmult_le_r _ _ y Hy) in H.
    assert (E : x / y * y == x) by (field; lra). by rewrite E in H.
  - apply (Qmult_le_r _ _ y Hy).
    assert (E : x / y * y == x) by (field; lra). by rewrite E.
Qed.

(** For an entry of positive duration the filter compares the length of the
    overlap with [minOverlap] times the entry's duration. *)
Lemma overlapsEnough_pos startTime endTime minOverlap entry :
  SubtitleEntry.startTime entry < SubtitleEntry.endTime entry ->
  overlapsEnough startTime endTime minOverlap entry = true <->
  minOverlap * (SubtitleEntry.endTime entry - SubtitleEntry.startTime entry)
  <= Qmax 0 (Qmin (SubtitleEntry.endTime entry) endTime
             - Qmax (SubtitleEntry.startTime entry) startTime).
Proof.
  intros Hpos. unfold overlapsEnough.
  rewrite divide_pos by lra. simpl. rewrite Qle_bool_iff.
  apply Qle_div_pos. lra.
Qed.

(** X5.  Every entry of positive duration that the remapper selects for a
    clip (full containment) is also kept by the overlap helper on the clip's
    range, for any threshold up to 1. *)
Theorem contained_entries_overlap episodeSubtitles clip minOverlap entry :
  minOverlap <= 1 ->
  SubtitleEntry.startTime entry < SubtitleEntry.endTime entry ->
  entry ∈ Remap.clipSubtitles episodeSubtitles clip ->
  entry ∈ findOverlappingSubtitles (Remap.entriesOf episodeSubtitles clip)
            (ClipDefinition.startTime clip) (ClipDefinition.endTime clip)
            (Some minOverlap).
Proof.
  intros Hm Hpos Hin. apply clipSubtitles_spec in Hin as (Hin & H1 & H2).
  unfold findOverlappingSubtitles. simpl.
  apply list_elem_of_In, filter_In. split; [by apply list_elem_of_In|].
  apply overlapsEnough_pos; [done|].
  rewrite (Q.max_l _ _ H1), (Q.min_l _ _ H2).
  rewrite Q.max_r by lra. nra.
Qed.

(** X6.  An entry of zero duration is never kept, whatever the range and the
    threshold (the ratio is 0/0); and with a positive threshold an entry
    that does not meet the range is never kept. *)
Theorem overlap_excludes entries startTime endTime minOverlap entry :
  (SubtitleEntry.startTime entry == SubtitleEntry.endTime entry ->
   entry ∉ findOverlappingSubtitles entries startTime endTime minOverlap)
  /\ (0 < default (1 # 2) minOverlap ->
      SubtitleEntry.endTime entry <= startTime
      \/ endTime <= SubtitleEntry.startTime entry ->
      entry ∉ findOverlappingSubtitles entries startTime endTime minOverlap).
Proof.
  unfold findOverlappingSubtitles. split.
  - intros Hz [_ Hf]%list_elem_of_In%filter_In. revert Hf.
    unfold overlapsEnough, divide.
    assert (E1 : Qeq_bool (SubtitleEntry.endTime entry
                           - SubtitleEntry.startTime entry) 0 = true)
      by (apply Qeq_bool_iff; lra).
    rewrite E1.
    assert (E2 : Qeq_bool
                   (Qmax 0 (Qmin (SubtitleEntry.endTime entry) endTime
                            - Qmax (SubtitleEntry.startTime entry) startTime)) 0
                 = true).
    { apply Qeq_bool_iff. apply Q.max_l.
      pose proof (Q.le_min_l (SubtitleEntry.endTime entry) endTime).
      pose proof (Q.le_max_l (SubtitleEntry.startTime entry) startTime). lra. }
    rewrite E2. done.
  - intros Hm Hout [_ Hf]%list_elem_of_In%filter_In. revert Hf.
    set (m := default (1 # 2) minOverlap) in *.
    unfold overlapsEnough.
    assert (E0 : Qmax 0 (Qmin (SubtitleEntry.endTime entry) endTime
                         - Qmax (SubtitleEntry.startTime entry) startTime) == 0).
    { apply Q.max_l.
      pose proof (Q.le_min_l (SubtitleEntry.endTime entry) endTime).
      pose proof (Q.le_min_r (SubtitleEntry.endTime entry) endTime).
      pose proof (Q.le_max_l (SubtitleEntry.startTime entry) startTime).
      pose proof (Q.le_max_r (SubtitleEntry.startTime entry) startTime).
      destruct Hout; lra. }
    unfold divide.
    destruct (Qeq_bool (SubtitleEntry.endTime entry
                        - SubtitleEntry.startTime entry) 0) eqn:Ed.
    + assert (E1 : Qeq_bool
                     (Qmax 0 (Qmin (SubtitleEntry.endTime entry) endTime
                              - Qmax (SubtitleEntry.startTime entry) startTime)) 0
                   = true) by (by apply Qeq_bool_iff).
      rewrite E1. done.
    + simpl. rewrite Qle_bool_iff. intros Hle.
      apply Qeq_bool_neq in Ed.
      assert (Hq : Qmax 0 (Qmin (SubtitleEntry.endTime entry) endTime
                           - Qmax (SubtitleEntry.startTime entry) startTime)
                   / (SubtitleEntry.endTime entry - SubtitleEntry.startTime entry)
                   == 0).
      { rewrite E0. field. exact Ed. }
      rewrite Hq in Hle. lra.
Qed.

End OverlapFacts.

(** The repository's test of the overlap helper. *)
Example findOverlappingSubtitles_test :
  map SubtitleEntry.text
    (findOverlappingSubtitles
       [ SubtitleEntry.mk "S01E01" 1 0 5 "Full before";
         SubtitleEntry.mk "S01E01" 2 8 12 "Partial overlap";
         SubtitleEntry.mk "S01E01" 3 11 15 "Inside";
         SubtitleEntry.mk "S01E01" 4 20 25 "After" ]
       10 18 None)
  = ["Partial overlap"; "Inside"].
Proof. reflexivity. Qed.

(** ** Digit strings *)

Section DigitStrings.

Lemma digitsValue_shift s :
  allDigits s = true ->
  forall a,
    JS.digitsValue a s = a * 10 ^ Z.of_nat (String.length s) + decimal s
    /\ 0 <= decimal s < 10 ^ Z.of_nat (String.length s).
Proof.
  unfold decimal. induction s as [|c s IH]; simpl.
  - intros _ a. lia.
  - intros [Hc Hs]%andb_true_iff a. rewrite Hc.
    destruct (digit_cases c Hc) as (_ & _ & _ & _ & _ & _ & Hv).
    destruct (IH Hs (10 * a + JS.digitValue c)) as [E1 B].
    destruct (IH Hs (10 * 0 + JS.digitValue c)) as [E2 _].
    rewrite E1, E2.
    rewrite Nat2Z.inj_succ, Z.pow_succ_r by lia.
    split; nia.
Qed.

Lemma digitValue_inj c d :
  JS.isDigit c = true -> JS.isDigit d = true ->
  JS.digitValue c = JS.digitValue d -> c = d.
Proof.
  unfold JS.digitValue. intros _ _ H.
  assert (E : N_of_ascii c = N_of_ascii d) by lia.
  apply (f_equal ascii_of_N) in E. by rewrite !ascii_N_embedding in E.
Qed.

(** Two digit strings of the same length that denote the same number are the
    same string. *)
Lemma digits_eq a :
  forall b,
    allDigits a = true -> allDigits b = true ->
    String.length a = String.length b -> decimal a = decimal b -> a = b.
Proof.
  induction a as [|c a IH]; intros [|d b]; simpl; try done.
  intros [Hc Ha]%andb_true_iff [Hd Hb]%andb_true_iff [= L] E.
  unfold decimal in E. simpl in E. rewrite Hc, Hd in E.
  destruct (digitsValue_shift a Ha (10 * 0 + JS.digitValue c)) as [E1 B1].
  destruct (digitsValue_shift b Hb (10 * 0 + JS.digitValue d)) as [E2 B2].
  rewrite E1, E2, <- L in E. rewrite <- L in B2.
  destruct (digit_cases c Hc) as (_ & _ & _ & _ & _ & _ & Vc).
  destruct (digit_cases d Hd) as (_ & _ & _ & _ & _ & _ & Vd).
  set (P := 10 ^ Z.of_nat (String.length a)) in *.
  assert (JS.digitValue c = JS.digitValue d) as Ev.
  { destruct (Z.lt_trichotomy (JS.digitValue c) (JS.digitValue d)) as [H|[H|H]];
      [exfalso | done | exfalso].
    - assert ((JS.digitValue c + 1) * P <= JS.digitValue d * P)
        by (apply Z.mul_le_mono_nonneg_r; lia). lia.
    - assert ((JS.digitValue d + 1) * P <= JS.digitValue c * P)
        by (apply Z.mul_le_mono_nonneg_r; lia). lia. }
  assert (decimal a = decimal b) as Er by (rewrite Ev in E; lia).
  f_equal; [by apply digitValue_inj | by apply IH].
Qed.

Lemma digitsOf_length_le fuel :
  forall (k : nat) n acc,
    (1 <= k)%nat -> 0 <= n < 10 ^ Z.of_nat k ->
    (String.length (JS.digitsOf fuel n acc) <= String.length acc + k)%nat.
Proof.
  induction fuel as [|fuel IH]; intros k n acc Hk Hn; simpl; [lia|].
  destruct (n / 10 =? 0) eqn:E; simpl; [lia|].
  apply Z.eqb_neq in E.
  destruct k as [|[|k]]; [lia| |].
  - exfalso. apply E. apply Z.div_small. simpl in Hn. lia.
  - specialize (IH (S k) (n / 10) (String (JS.digitChar (n mod 10)) acc)).
    simpl String.length in IH.
    assert (0 <= n / 10 < 10 ^ Z.of_nat (S k)).
    { rewrite (Nat2Z.inj_succ (S k)), Z.pow_succ_r in Hn by lia.
      split; [apply Z.div_pos; lia | apply Z.div_lt_upper_bound; lia]. }
    specialize (IH ltac:(lia) ltac:(done)). lia.
Qed.

(** A non-negative integer below 10^k prints in at most k characters. *)
Lemma toString_length n (k : nat) :
  (1 <= k)%nat -> 0 <= n < 10 ^ Z.of_nat k ->
  (1 <= String.length (JS.toString n) <= k)%nat.
Proof.
  intros Hk Hn. destruct (toString_nonneg n ltac:(lia)) as (_ & _ & Hne).
  split; [destruct (JS.toString n); [done | simpl; lia]|].
  unfold JS.toString in *. destruct (n <? 0) eqn:E; [apply Z.ltb_lt in E; lia|].
  pose proof (digitsOf_length_le (S (Z.to_nat (Z.log2 n))) k n EmptyString Hk Hn) as L.
  simpl String.length in L at 2. lia.
Qed.

(** A number below 10^k, printed and padded to k characters, is exactly k
    digits denoting the number. *)
Lemma padStart_exact n (k : nat) :
  (1 <= k)%nat -> 0 <= n < 10 ^ Z.of_nat k ->
  allDigits (JS.padStart k "0" (JS.toString n)) = true
  /\ String.length (JS.padStart k "0" (JS.toString n)) = k
  /\ decimal (JS.padStart k "0" (JS.toString n)) = n.
Proof.
  intros Hk Hn.
  destruct (toString_nonneg n ltac:(lia)) as (A1 & A2 & _).
  destruct (padStart_zero_digits k _ A1) as (P1 & P2 & _ & _).
  destruct (toString_length n k Hk Hn) as [L1 L2].
  split; [done|]. split; [|by rewrite P2].
  unfold JS.padStart. rewrite length_app_s, length_replicate. lia.
Qed.

End DigitStrings.

(** ** Clock fields *)

Section ClockFields.
Local Open Scope Q_scope.

Ltac push_inject :=
  unfold Z.sub;
  rewrite ?inject_Z_plus, ?inject_Z_opp, ?inject_Z_mult;
  repeat match goal with
         | |- context [inject_Z (Zpos ?p)] =>
             change (inject_Z (Zpos p)) with (Zpos p # 1)
         | |- context [inject_Z 0] => change (inject_Z 0) with 0
         end.

Ltac push_inject_in H :=
  unfold Z.sub in H;
  rewrite ?inject_Z_plus, ?inject_Z_opp, ?inject_Z_mult in H;
  repeat match type of H with
         | context [inject_Z (Zpos ?p)] =>
             change (inject_Z (Zpos p)) with (Zpos p # 1) in H
         | context [inject_Z 0] => change (inject_Z 0) with 0 in H
         end.

(** The fields [secondsToSrtTime] prints for a non-negative time, in terms
    of the whole seconds [Qfloor x]. *)
Lemma clock_fields x :
  0 <= x ->
  let hours := JS.floor (x / 3600) in
  let minutes := JS.floor (JS.rem x 3600 / 60) in
  let secs := JS.floor (JS.rem x 60) in
  let ms := JS.round (JS.rem x 1 * 1000) in
  (0 <= hours)%Z /\ (0 <= minutes < 60)%Z /\ (0 <= secs < 60)%Z
  /\ (0 <= ms <= 1000)%Z
  /\ (hours * 3600 + minutes * 60 + secs = Qfloor x)%Z
  /\ (minutes = Qfloor (x / 60) - 60 * hours)%Z
  /\ ms = Qfloor ((x - inject_Z (Qfloor x)) * 1000 + (1 # 2))
  /\ ((hours < 100)%Z <-> x < 360000).
Proof.
  intros Hx. unfold JS.floor, JS.round, JS.rem.
  assert (D1 : x / 3600 == x * (1 # 3600)) by reflexivity.
  assert (D2 : x / 60 == x * (1 # 60)) by reflexivity.
  assert (D3 : x / 1 == x) by (unfold Qdiv; change (/ 1) with 1; ring).
  rewrite !truncate_nonneg by (rewrite ?D1, ?D2, ?D3; lra).
  rewrite (Qfloor_comp _ _ D3).
  set (H := Qfloor (x / 3600)). set (K := Qfloor (x / 60)). set (F := Qfloor x).
  pose proof (Qfloor_le (x / 3600)) as H1. pose proof (Qlt_floor (x / 3600)) as H2.
  pose proof (Qfloor_le (x / 60)) as K1. pose proof (Qlt_floor (x / 60)) as K2.
  pose proof (Qfloor_le x) as F1. pose proof (Qlt_floor x) as F2.
  fold H in H1, H2. fold K in K1, K2. fold F in F1, F2.
  push_inject_in H2. push_inject_in K2. push_inject_in F2.
  rewrite D1 in H1, H2. rewrite D2 in K1, K2.
  assert (EM : Qfloor ((x - 3600 * inject_Z H) / 60) = (K - 60 * H)%Z).
  { assert (E : (x - 3600 * inject_Z H) / 60
                == (x - 3600 * inject_Z H) * (1 # 60)) by reflexivity.
    apply floor_unique; push_inject; rewrite E; lra. }
  assert (ES : Qfloor (x - 60 * inject_Z K) = (F - 60 * K)%Z).
  { apply floor_unique; push_inject; lra. }
  assert (EMS : Qfloor ((x - 1 * inject_Z F) * 1000 + (1 # 2))
                = Qfloor ((x - inject_Z F) * 1000 + (1 # 2))).
  { apply Qfloor_comp. ring. }
  rewrite EM, ES, EMS.
  set (MS := Qfloor ((x - inject_Z F) * 1000 + (1 # 2))).
  pose proof (Qfloor_le ((x - inject_Z F) * 1000 + (1 # 2))) as M1.
  pose proof (Qlt_floor ((x - inject_Z F) * 1000 + (1 # 2))) as M2.
  fold MS in M1, M2. push_inject_in M2.
  assert (H0 : (0 <= H)%Z) by (apply floor_nonneg; rewrite D1; lra).
  assert (Hq0 : 0 <= inject_Z H) by (rewrite Zle_Qle in H0; exact H0).
  assert (A1 : (60 * H < K + 1)%Z) by (rewrite Zlt_Qlt; push_inject; lra).
  assert (A2 : (K < 60 * H + 60)%Z) by (rewrite Zlt_Qlt; push_inject; lra).
  assert (A3 : (60 * K < F + 1)%Z) by (rewrite Zlt_Qlt; push_inject; lra).
  assert (A4 : (F < 60 * K + 60)%Z) by (rewrite Zlt_Qlt; push_inject; lra).
  split; [done|].
  split; [lia|].
  split; [lia|].
  split.
  { split; [rewrite Zle_Qle; push_inject|].
    - assert (A : (0 <= MS)%Z) by (apply floor_nonneg; lra).
      rewrite Zle_Qle in A. exact A.
    - assert (A : (MS < 1001)%Z) by (rewrite Zlt_Qlt; push_inject; lra). lia. }
  split; [lia|]. split; [done|]. split; [done|].
  split; intros A.
  - assert (B : (H + 1 <= 100)%Z) by lia. rewrite Zle_Qle in B. push_inject_in B. lra.
  - rewrite Zlt_Qlt. push_inject. lra.
Qed.

End ClockFields.

(** ** The time marker and the timestamp text *)

Section TimestampText.
Local Open Scope Q_scope.

Ltac push_inject :=
  unfold Z.sub;
  rewrite ?inject_Z_plus, ?inject_Z_opp, ?inject_Z_mult;
  repeat match goal with
         | |- context [inject_Z (Zpos ?p)] =>
             change (inject_Z (Zpos p)) with (Zpos p # 1)
         | |- context [inject_Z 0] => change (inject_Z 0) with 0
         end.

(** X7.  For a non-negative time the marker is the whole minutes (not
    wrapped at 60, at least two digits), a colon, and the seconds within the
    minute on two digits; together they denote the whole seconds of the
    time. *)
Theorem formatTimeMarker_fields x :
  0 <= x ->
  exists mm ss,
    formatTimeMarker x = mm +:+ String ":" ss
    /\ allDigits mm = true /\ allDigits ss = true
    /\ (2 <= String.length mm)%nat /\ String.length ss = 2%nat
    /\ (0 <= decimal ss < 60)%Z
    /\ (60 * decimal mm + decimal ss = Qfloor x)%Z.
Proof.
  intros Hx. destruct (clock_fields x Hx) as (Hh & Hm & Hs & _ & Hsum & HM & _).
  unfold formatTimeMarker.
  set (mins := JS.floor (x / 60)) in *.
  set (secs := JS.floor (JS.rem x 60)) in *.
  assert (Hmins : (0 <= mins)%Z).
  { apply floor_nonneg.
    assert (D : x / 60 == x * (1 # 60)) by reflexivity. rewrite D. lra. }
  destruct (toString_nonneg mins Hmins) as (A1 & A2 & _).
  destruct (padStart_zero_digits 2 _ A1) as (P1 & P2 & P3 & _).
  destruct (padStart_exact secs 2 ltac:(lia) ltac:(simpl; lia)) as (S1 & S2 & S3).
  eexists _, _. rewrite app_cons_s, app_nil_s.
  split; [reflexivity|].
  rewrite P2, A2, S3. repeat split; try done; try lia.
  unfold mins, JS.floor in *. lia.
Qed.

Lemma two_digits a b :
  JS.isDigit a = true -> JS.isDigit b = true ->
  JS.padStart 2 "0" (JS.toString (10 * JS.digitValue a + JS.digitValue b))
  = String a (String b EmptyString).
Proof.
  intros Ha Hb.
  destruct (digit_cases a Ha) as (_ & _ & _ & _ & _ & _ & Va).
  destruct (digit_cases b Hb) as (_ & _ & _ & _ & _ & _ & Vb).
  destruct (padStart_exact (10 * JS.digitValue a + JS.digitValue b) 2
              ltac:(lia) ltac:(simpl; lia)) as (P1 & P2 & P3).
  apply digits_eq; try done.
  - simpl. by rewrite Ha, Hb.
  - rewrite P3. unfold decimal. simpl. rewrite Ha, Hb. lia.
Qed.

Lemma three_digits a b c :
  JS.isDigit a = true -> JS.isDigit b = true -> JS.isDigit c = true ->
  JS.padStart 3 "0"
    (JS.toString (100 * JS.digitValue a + 10 * JS.digitValue b + JS.digitValue c))
  = String a (String b (String c EmptyString)).
Proof.
  intros Ha Hb Hc.
  destruct (digit_cases a Ha) as (_ & _ & _ & _ & _ & _ & Va).
  destruct (digit_cases b Hb) as (_ & _ & _ & _ & _ & _ & Vb).
  destruct (digit_cases c Hc) as (_ & _ & _ & _ & _ & _ & Vc).
  destruct (padStart_exact
              (100 * JS.digitValue a + 10 * JS.digitValue b + JS.digitValue c) 3
              ltac:(lia) ltac:(simpl; lia)) as (P1 & P2 & P3).
  apply digits_eq; try done.
  - simpl. by rewrite Ha, Hb, Hc.
  - rewrite P3. unfold decimal. simpl. rewrite Ha, Hb, Hc. lia.
Qed.

(** The clock fields of h*3600 + m*60 + s + ms/1000 are h, m, s and ms. *)
Lemma clock_fields_of_value (h m s ms : Z) :
  (0 <= h)%Z -> (0 <= m < 60)%Z -> (0 <= s < 60)%Z -> (0 <= ms < 1000)%Z ->
  let v := inject_Z h * 3600 + inject_Z m * 60 + inject_Z s + inject_Z ms / 1000 in
  JS.floor (v / 3600) = h
  /\ JS.floor (JS.rem v 3600 / 60) = m
  /\ JS.floor (JS.rem v 60) = s
  /\ JS.round (JS.rem v 1 * 1000) = ms.
Proof.
  intros Hh [Hm1 Hm2] [Hs1 Hs2] [Hms1 Hms2] v.
  assert (Qh : 0 <= inject_Z h) by (rewrite Zle_Qle in Hh; exact Hh).
  assert (Qm1 : 0 <= inject_Z m) by (rewrite Zle_Qle in Hm1; exact Hm1).
  assert (Qm2 : inject_Z m <= 59)
    by (assert (A : (m <= 59)%Z) by lia; rewrite Zle_Qle in A; exact A).
  assert (Qs1 : 0 <= inject_Z s) by (rewrite Zle_Qle in Hs1; exact Hs1).
  assert (Qs2 : inject_Z s <= 59)
    by (assert (A : (s <= 59)%Z) by lia; rewrite Zle_Qle in A; exact A).
  assert (Qms1 : 0 <= inject_Z ms) by (rewrite Zle_Qle in Hms1; exact Hms1).
  assert (Qms2 : inject_Z ms <= 999)
    by (assert (A : (ms <= 999)%Z) by lia; rewrite Zle_Qle in A; exact A).
  assert (Ev : v == inject_Z h * 3600 + inject_Z m * 60 + inject_Z s
                    + inject_Z ms * (1 # 1000)) by reflexivity.
  assert (V0 : 0 <= v) by (rewrite Ev; lra).
  assert (D1 : v / 3600 == v * (1 # 3600)) by reflexivity.
  assert (D2 : v / 60 == v * (1 # 60)) by reflexivity.
  assert (D3 : v / 1 == v) by (unfold Qdiv; change (/ 1) with 1; ring).
  unfold JS.floor, JS.round, JS.rem.
  rewrite !truncate_nonneg by (rewrite ?D1, ?D2, ?D3; lra).
  assert (F1 : Qfloor (v / 3600) = h)
    by (apply floor_unique; push_inject; rewrite D1, Ev; lra).
  assert (F2 : Qfloor (v / 60) = (60 * h + m)%Z)
    by (apply floor_unique; push_inject; rewrite D2, Ev; lra).
  assert (F3 : Qfloor (v / 1) = (3600 * h + 60 * m + s)%Z)
    by (apply floor_unique; push_inject; rewrite D3, Ev; lra).
  rewrite F1, F2, F3.
  split; [done|]. split; [|split].
  - assert (E : (v - 3600 * inject_Z h) / 60
                == (v - 3600 * inject_Z h) * (1 # 60)) by reflexivity.
    apply floor_unique; push_inject; rewrite E, Ev; lra.
  - apply floor_unique; push_inject; rewrite Ev; lra.
  - apply floor_unique; push_inject; rewrite Ev; lra.
Qed.

End TimestampText.

Section TimestampRoundTrips.
Local Open Scope Q_scope.



(** X8.  A timestamp of the pattern with minutes and seconds below 60 is
    parsed to a number that formats back to the same text, with ',' as the
    separator. *)
Theorem timestamp_text_round_trip t :
  isTimestamp t = true -> inClockRange t = true ->
  srtTimeToSeconds t = Return (JS.Num (timestampValue t))
  /\ secondsToSrtTime (timestampValue t) = JS.replaceFirst "." "," t.
Proof.
  intros Ht Hr. split.
  { destruct (isTimestamp_inv t Ht)
      as (hh & mm & ss & fff & sep & -> & [Hh Lh] & [Hm Lm] & [Hs Ls] & [Hf Lf]
          & Hsep & ->).
    apply srtTimeToSeconds_fields; auto;
      try (intros ->; simpl in *; discriminate); lia. }
  revert Ht Hr. unfold isTimestamp, inClockRange, timestampValue.
  do 12 (destruct t as [|? t]; [discriminate|]).
  destruct t; [|discriminate]. simpl.
  rewrite !andb_true_iff, orb_true_iff, !Ascii.eqb_eq, !Z.ltb_lt.
  intros (((((((((((H1 & H2) & ->) & M1) & M2) & ->) & S1) & S2) & Hsep) & F1) & F2) & F3)
         [Rm Rs].
  destruct (digit_cases _ H1) as (_ & _ & P1 & _ & _ & _ & V1).
  destruct (digit_cases _ H2) as (_ & _ & P2 & _ & _ & _ & V2).
  destruct (digit_cases _ M1) as (_ & _ & P3 & _ & _ & _ & V3).
  destruct (digit_cases _ M2) as (_ & _ & P4 & _ & _ & _ & V4).
  destruct (digit_cases _ S1) as (_ & _ & P5 & _ & _ & _ & V5).
  destruct (digit_cases _ S2) as (_ & _ & P6 & _ & _ & _ & V6).
  destruct (digit_cases _ F1) as (_ & _ & P7 & _ & _ & _ & V7).
  destruct (digit_cases _ F2) as (_ & _ & P8 & _ & _ & _ & V8).
  destruct (digit_cases _ F3) as (_ & _ & P9 & _ & _ & _ & V9).
  unfold secondsToSrtTime.
  match goal with
  | |- context [JS.floor ((inject_Z ?h * 3600 + inject_Z ?m * 60 + inject_Z ?s
                           + inject_Z ?ms / 1000) / 3600)] =>
      destruct (clock_fields_of_value h m s ms) as (E1 & E2 & E3 & E4); try lia
  end.
  rewrite E1, E2, E3, E4.
  rewrite !two_digits, three_digits by done.
  rewrite !app_cons_s, !app_nil_s. simpl.
  rewrite P1, P2, P3, P4, P5, P6.
  destruct Hsep as [-> | ->]; simpl; [|done].
  by rewrite P7, P8, P9.
Qed.



End TimestampRoundTrips.

(** ** The episode identity resolver: canonical identifiers *)

(** X12.  A canonical identifier (S, two digits, E, two digits) resolves to
    itself. *)
Theorem extractEpisodeId_canonical id :
  isEpisodeId id = true -> extractEpisodeIdFromFilename id = Some id.
Proof.
  unfold isEpisodeId.
  destruct id as [|s [|d1 [|d2 [|e [|d3 [|d4 [|]]]]]]]; try discriminate.
  simpl. rewrite !andb_true_iff, !Ascii.eqb_eq.
  intros (((((-> & D1) & D2) & ->) & D3) & D4).
  unfold extractEpisodeIdFromFilename.
  assert (E : Regex.search sPattern
                (String "S" (String d1 (String d2 (String "E"
                   (String d3 (String d4 EmptyString))))))
              = Some (String d1 (String d2 EmptyString),
                      String d3 (String d4 EmptyString))).
  { unfold Regex.search, sPattern, Regex.bind, Regex.oneOf, Regex.digits12,
      Regex.alt, Regex.charIf, Regex.ret, Regex.bind.
    simpl. rewrite D1. simpl. rewrite D2. simpl. rewrite D3. simpl.
    rewrite D4. simpl. done. }
  rewrite E. simpl. done.
Qed.

(** ** The text splitters: the ceiling holds when the comma parts fit *)

Section SplitterBound.

Lemma length_string_of_list l :
  String.length (string_of_list_ascii l) = length l.
Proof. induction l as [|c l IH]; simpl; [done | by rewrite IH]. Qed.

Lemma length_list_of_string s :
  length (list_ascii_of_string s) = String.length s.
Proof. induction s as [|c s IH]; simpl; [done | by rewrite IH]. Qed.

Lemma skipWhiteSpace_length s :
  (String.length (JS.skipWhiteSpace s) <= String.length s)%nat.
Proof.
  induction s as [|c s IH]; simpl; [done|].
  destruct (JS.isWhiteSpace c); simpl; lia.
Qed.

Lemma trim_length s : (String.length (trim s) <= String.length s)%nat.
Proof.
  unfold trim.
  set (f := fix dropWhiteSpace (l : list ascii) : list ascii :=
              match l with
              | [] => []
              | c :: rest => if JS.isWhiteSpace c then dropWhiteSpace rest else l
              end).
  assert (F : forall l, (length (f l) <= length l)%nat).
  { induction l as [|c l IH]; simpl; [done|].
    destruct (JS.isWhiteSpace c); simpl; lia. }
  rewrite length_string_of_list, length_rev.
  etrans; [apply F|]. rewrite length_rev, length_list_of_string.
  apply skipWhiteSpace_length.
Qed.

Lemma joined_length cur part :
  (String.length
     (cur +:+ (if truthy cur then " " else EmptyString) +:+ part)
   <= String.length (cur +:+ " " +:+ part))%nat.
Proof.
  rewrite !length_app_s. destruct (truthy cur); simpl; lia.
Qed.

Lemma addPartWith_fits limit st part :
  fits limit st -> (String.length part <= limit)%nat ->
  fits limit (addPartWith limit st part).
Proof.
  destruct st as [chunks cur]. intros [Hc Hcur] Hp. unfold addPartWith.
  destruct (limit <? _)%nat eqn:E.
  - split; [|done]. simpl. destruct (truthy cur); [|done].
    apply Forall_app. split; [done|]. constructor; [|constructor].
    pose proof (trim_length cur). simpl in *. lia.
  - apply Nat.ltb_ge in E. split; [done|]. simpl.
    pose proof (joined_length cur part). lia.
Qed.

Lemma fold_addPartWith_fits limit parts :
  forall st,
    fits limit st ->
    Forall (fun part => (String.length part <= limit)%nat) parts ->
    fits limit (fold_left (addPartWith limit) parts st).
Proof.
  induction parts as [|p parts IH]; intros st Hst Hp; simpl; [done|].
  apply Forall_cons in Hp as [Hp1 Hp2].
  apply IH; [by apply addPartWith_fits | done].
Qed.

Lemma addSentenceWith_fits limit st sentence :
  fits limit st ->
  ((limit < String.length sentence)%nat ->
   Forall (fun part => (String.length part <= limit)%nat)
     (Regex.split afterComma sentence)) ->
  fits limit (addSentenceWith limit st sentence).
Proof.
  destruct st as [chunks cur]. intros [Hc Hcur] Hparts. unfold addSentenceWith.
  simpl in Hc, Hcur.
  destruct (limit <? String.length sentence)%nat eqn:E.
  - apply Nat.ltb_lt in E. apply fold_addPartWith_fits; [|by apply Hparts].
    destruct (truthy cur); [|done]. split; simpl; [|lia].
    apply Forall_app. split; [done|]. constructor; [|constructor].
    pose proof (trim_length cur). lia.
  - apply Nat.ltb_ge in E.
    destruct (limit <? _)%nat eqn:E2.
    + split; [|done]. simpl.
      apply Forall_app. split; [done|]. constructor; [|constructor].
      pose proof (trim_length cur). lia.
    + apply Nat.ltb_ge in E2. split; [done|]. simpl.
      pose proof (joined_length cur sentence). lia.
Qed.

Lemma splitWith_fits limit text :
  partsFit limit text ->
  Forall (fun chunk => (String.length chunk <= limit)%nat) (splitWith limit text).
Proof.
  intros Hfit. unfold splitWith.
  destruct (String.length text <=? limit)%nat eqn:E.
  { apply Nat.leb_le in E. by constructor. }
  assert (G : forall sentences st,
             fits limit st ->
             (forall s, s ∈ sentences -> s ∈ Regex.split sentenceBoundary text) ->
             fits limit (fold_left (addSentenceWith limit) sentences st)).
  { induction sentences as [|s rest IH]; intros st Hst Hin; simpl; [done|].
    apply IH.
    - apply addSentenceWith_fits; [done|].
      intros Hlong. apply List.Forall_forall. intros part Hpart.
      apply (Hfit s); [apply Hin; by left | done | by apply list_elem_of_In].
    - intros s' Hs'. apply Hin. by right. }
  specialize (G (Regex.split sentenceBoundary text) ([], EmptyString)).
  destruct (fold_left _ _ _) as [chunks cur].
  destruct G as [G1 G2]; [split; [constructor | simpl; lia] | done |].
  simpl in G1, G2.
  destruct (truthy (trim cur)); [|done].
  apply Forall_app. split; [done|]. constructor; [|constructor].
  pose proof (trim_length cur). lia.
Qed.

Lemma azure_addPart st part :
  (Chunker.chunks (Chunker.addPart st part),
   Chunker.currentChunk (Chunker.addPart st part))
  = addPartWith MAX_CHARS_PER_CHUNK
      (Chunker.chunks st, Chunker.currentChunk st) part.
Proof.
  unfold Chunker.addPart, addPartWith.
  destruct (_ <? _)%nat; destruct (truthy _); reflexivity.
Qed.

Lemma azure_fold_addPart parts :
  forall st,
    (Chunker.chunks (fold_left Chunker.addPart parts st),
     Chunker.currentChunk (fold_left Chunker.addPart parts st))
    = fold_left (addPartWith MAX_CHARS_PER_CHUNK) parts
        (Chunker.chunks st, Chunker.currentChunk st).
Proof.
  induction parts as [|p parts IH]; intros st; simpl; [done|].
  by rewrite IH, azure_addPart.
Qed.

Lemma azure_addSentence st sentence :
  (Chunker.chunks (Chunker.addSentence st sentence),
   Chunker.currentChunk (Chunker.addSentence st sentence))
  = addSentenceWith MAX_CHARS_PER_CHUNK
      (Chunker.chunks st, Chunker.currentChunk st) sentence.
Proof.
  unfold Chunker.addSentence, addSentenceWith.
  destruct (_ <? String.length sentence)%nat.
  - rewrite azure_fold_addPart. by destruct (truthy _).
  - destruct (_ <? _)%nat; reflexivity.
Qed.

Lemma azure_splitWith text :
  splitTextIntoChunks text = splitWith MAX_CHARS_PER_CHUNK text.
Proof.
  unfold splitTextIntoChunks, splitWith.
  destruct (_ <=? _)%nat; [done|].
  assert (G : forall sentences st,
             (Chunker.chunks (fold_left Chunker.addSentence sentences st),
              Chunker.currentChunk (fold_left Chunker.addSentence sentences st))
             = fold_left (addSentenceWith MAX_CHARS_PER_CHUNK) sentences
                 (Chunker.chunks st, Chunker.currentChunk st)).
  { induction sentences as [|s rest IH]; intros st; simpl; [done|].
    by rewrite IH, azure_addSentence. }
  specialize (G (Regex.split sentenceBoundary text)
                (Chunker.mkState [] EmptyString)).
  simpl in G. rewrite <- G. done.
Qed.

Lemma openai_addPart st part :
  (OpenAISpeech.chunks (OpenAISpeech.addPart st part),
   OpenAISpeech.currentChunk (OpenAISpeech.addPart st part))
  = addPartWith OpenAISpeech.MAX_CHARS_PER_CHUNK
      (OpenAISpeech.chunks st, OpenAISpeech.currentChunk st) part.
Proof.
  unfold OpenAISpeech.addPart, addPartWith.
  destruct (_ <? _)%nat; destruct (truthy _); reflexivity.
Qed.

Lemma openai_fold_addPart parts :
  forall st,
    (OpenAISpeech.chunks (fold_left OpenAISpeech.addPart parts st),
     OpenAISpeech.currentChunk (fold_left OpenAISpeech.addPart parts st))
    = fold_left (addPartWith OpenAISpeech.MAX_CHARS_PER_CHUNK) parts
        (OpenAISpeech.chunks st, OpenAISpeech.currentChunk st).
Proof.
  induction parts as [|p parts IH]; intros st; simpl; [done|].
  by rewrite IH, openai_addPart.
Qed.

Lemma openai_addSentence st sentence :
  (OpenAISpeech.chunks (OpenAISpeech.addSentence st sentence),
   OpenAISpeech.currentChunk (OpenAISpeech.addSentence st sentence))
  = addSentenceWith OpenAISpeech.MAX_CHARS_PER_CHUNK
      (OpenAISpeech.chunks st, OpenAISpeech.currentChunk st) sentence.
Proof.
  unfold OpenAISpeech.addSentence, addSentenceWith.
  destruct (_ <? String.length sentence)%nat.
  - rewrite openai_fold_addPart. by destruct (truthy _).
  - destruct (_ <? _)%nat; reflexivity.
Qed.

Lemma openai_splitWith text :
  OpenAISpeech.splitTextIntoChunks text
  = splitWith OpenAISpeech.MAX_CHARS_PER_CHUNK text.
Proof.
  unfold OpenAISpeech.splitTextIntoChunks, splitWith.
  destruct (_ <=? _)%nat; [done|].
  assert (G : forall sentences st,
             (OpenAISpeech.chunks (fold_left OpenAISpeech.addSentence sentences st),
              OpenAISpeech.currentChunk
                (fold_left OpenAISpeech.addSentence sentences st))
             = fold_left (addSentenceWith OpenAISpeech.MAX_CHARS_PER_CHUNK)
                 sentences
                 (OpenAISpeech.chunks st, OpenAISpeech.currentChunk st)).
  { induction sentences as [|s rest IH]; intros st; simpl; [done|].
    by rewrite IH, openai_addSentence. }
  specialize (G (Regex.split sentenceBoundary text)
                (OpenAISpeech.mkState [] EmptyString)).
  simpl in G. rewrite <- G. done.
Qed.

(** X13.  The Azure splitter keeps its ceiling of 2000 characters on every
    text whose over-long sentences have comma-separated parts that fit. *)
Theorem splitTextIntoChunks_bounded text :
  partsFit MAX_CHARS_PER_CHUNK text ->
  Forall (fun chunk => (String.length chunk <= MAX_CHARS_PER_CHUNK)%nat)
    (splitTextIntoChunks text).
Proof. intros H. rewrite azure_splitWith. by apply splitWith_fits. Qed.

(** X14.  The OpenAI splitter keeps its ceiling of 4000 characters under the
    same condition. *)
Theorem openai_splitTextIntoChunks_bounded text :
  partsFit OpenAISpeech.MAX_CHARS_PER_CHUNK text ->
  Forall (fun chunk =>
            (String.length chunk <= OpenAISpeech.MAX_CHARS_PER_CHUNK)%nat)
    (OpenAISpeech.splitTextIntoChunks text).
Proof. intros H. rewrite openai_splitWith. by apply splitWith_fits. Qed.

End SplitterBound.

(** ** The overall progress metric: range and monotonicity *)

Section ProgressMore.
Local Open Scope Q_scope.

Lemma progress_active (job : Job.t) (i : nat) :
  Job.status job <> completed ->
  relevantStages (JobConfig.mode (Job.config job)) !! i = Some (Job.status job) ->
  calculateOverallProgress job
  = Qmin 99
      (inject_Z
         (JS.round
            (inject_Z (Z.of_nat i)
             * (100 / inject_Z (segments (JobConfig.mode (Job.config job))))
             + JobProgress.stageProgress (Job.progress job) / 100
               * (100 / inject_Z (segments (JobConfig.mode (Job.config job)))))))
    /\ (Z.of_nat i < segments (JobConfig.mode (Job.config job)))%Z.
Proof.
  destruct job as [[mode] status [stage sp done_]]. simpl. intros Hne Hi.
  destruct mode;
    repeat (destruct i as [|i];
            [injection Hi as <-; first [by destruct Hne | by split]|]);
    discriminate Hi.
Qed.

Lemma progress_completed_index mode (i : nat) :
  relevantStages mode !! i = Some completed -> Z.of_nat i = segments mode.
Proof.
  intros Hi. destruct mode;
    do 10 (destruct i as [|i]; [first [discriminate Hi | done]|]);
    discriminate Hi.
Qed.

Lemma progress_le_100 job : calculateOverallProgress job <= 100.
Proof.
  unfold calculateOverallProgress.
  destruct (_ =? -1)%Z eqn:E; [lra|].
  destruct (decide (Job.status job = failed)) as [Hf|_].
  - rewrite Hf, indexOf_failed in E. discriminate E.
  - destruct (decide (Job.status job = completed)); [lra|].
    apply (Qle_trans _ 99); [apply Q.le_min_l | lra].
Qed.

Lemma round_mono x y : x <= y -> (JS.round x <= JS.round y)%Z.
Proof. intros H. unfold JS.round. apply Qfloor_resp_le. lra. Qed.

(** X15.  Progress never goes backwards along the stage list: a job at a
    later stage, or at the same stage with at least as much stage progress,
    reports at least as much overall progress (stage progress within
    0..100). *)
Theorem overall_progress_monotone (job1 job2 : Job.t) (i1 i2 : nat) :
  let mode := JobConfig.mode (Job.config job1) in
  let p1 := JobProgress.stageProgress (Job.progress job1) in
  let p2 := JobProgress.stageProgress (Job.progress job2) in
  JobConfig.mode (Job.config job2) = mode ->
  relevantStages mode !! i1 = Some (Job.status job1) ->
  relevantStages mode !! i2 = Some (Job.status job2) ->
  p1 <= 100 -> 0 <= p2 ->
  (i1 < i2)%nat \/ (i1 = i2 /\ p1 <= p2) ->
  calculateOverallProgress job1 <= calculateOverallProgress job2.
Proof.
  intros mode p1 p2 Hmode H1 H2 Hp1 Hp2 Hord.
  destruct (decide (Job.status job2 = completed)) as [Hc2|Hn2].
  { assert (E : calculateOverallProgress job2 = 100).
    { unfold calculateOverallProgress. rewrite Hc2, indexOf_completed.
      by destruct (JobConfig.mode (Job.config job2)). }
    rewrite E. apply progress_le_100. }
  rewrite <- Hmode in H2.
  destruct (progress_active job2 i2 Hn2 H2) as [E2 B2].
  assert (Hn1 : Job.status job1 <> completed).
  { intros Hc1. rewrite Hc1 in H1. apply progress_completed_index in H1.
    fold mode in H1. rewrite Hmode in B2. fold mode in B2. lia. }
  destruct (progress_active job1 i1 Hn1 H1) as [E1 B1].
  rewrite E1, E2. rewrite Hmode. fold mode p1 p2.
  apply Q.min_le_compat_l. rewrite <- Zle_Qle. apply round_mono.
  assert (W : 100 / inject_Z (segments mode) == 100 # 7
              \/ 100 / inject_Z (segments mode) == 100 # 9)
    by (destruct mode; [left | right]; reflexivity).
  assert (D1 : p1 / 100 == p1 * (1 # 100)) by reflexivity.
  assert (D2 : p2 / 100 == p2 * (1 # 100)) by reflexivity.
  assert (I : inject_Z (Z.of_nat i1) + 1 <= inject_Z (Z.of_nat i2)
              \/ (inject_Z (Z.of_nat i1) == inject_Z (Z.of_nat i2) /\ p1 <= p2)).
  { destruct Hord as [Hlt | [-> Hle]]; [left | right; split; [reflexivity | done]].
    assert (A : (Z.of_nat i1 + 1 <= Z.of_nat i2)%Z) by lia.
    rewrite Zle_Qle, inject_Z_plus in A. exact A. }
  rewrite D1, D2.
  destruct W as [-> | ->]; destruct I as [I | [I I']]; lra.
Qed.

(** X16.  With a non-negative stage progress the metric is a percentage. *)
Theorem overall_progress_range (job : Job.t) :
  0 <= JobProgress.stageProgress (Job.progress job) ->
  0 <= calculateOverallProgress job <= 100.
Proof.
  intros Hp. split; [|apply progress_le_100].
  unfold calculateOverallProgress.
  destruct (_ =? -1)%Z eqn:E; [lra|].
  destruct (decide (Job.status job = failed)) as [Hf|_]; [done|].
  destruct (decide (Job.status job = completed)); [lra|].
  apply Q.min_glb; [lra|].
  change 0 with (inject_Z 0). rewrite <- Zle_Qle.
  apply floor_nonneg.
  set (mode := JobConfig.mode (Job.config job)) in *.
  assert (I : (0 <= indexOf (relevantStages mode) (Job.status job))%Z).
  { destruct mode; destruct (Job.status job); vm_compute in E |- *;
      first [discriminate E | intros H; discriminate H]. }
  rewrite Zle_Qle in I. change (inject_Z 0) with 0 in I.
  assert (W : 100 / inject_Z (Z.of_nat (length (relevantStages mode)) - 1) == 100 # 7
              \/ 100 / inject_Z (Z.of_nat (length (relevantStages mode)) - 1)
                 == 100 # 9)
    by (destruct mode; [left | right]; reflexivity).
  assert (D : JobProgress.stageProgress (Job.progress job) / 100
              == JobProgress.stageProgress (Job.progress job) * (1 # 100))
    by reflexivity.
  rewrite D. destruct W as [-> | ->]; nra.
Qed.

End ProgressMore.

(** ** The season timeline *)

Section TimelineFacts.

Lemma insertEpisode_perm x l : insertEpisode x l ≡ₚ x :: l.
Proof.
  induction l as [|y l IH]; simpl; [done|].
  destruct (_ <=? _); [done|]. rewrite IH. apply Permutation_swap.
Qed.

Lemma sortEpisodes_perm l : sortEpisodes l ≡ₚ l.
Proof.
  induction l as [|x l IH]; simpl; [done|].
  rewrite insertEpisode_perm. by constructor.
Qed.

Lemma insertEpisode_sorted x l :
  StronglySorted
    (fun a b => EpisodeSubtitles.episodeNumber a <= EpisodeSubtitles.episodeNumber b)
    l ->
  StronglySorted
    (fun a b => EpisodeSubtitles.episodeNumber a <= EpisodeSubtitles.episodeNumber b)
    (insertEpisode x l).
Proof.
  induction 1 as [|y l Hl IH Hy]; simpl.
  - repeat constructor.
  - destruct (_ <=? _) eqn:E.
    + apply Z.leb_le in E. constructor; [by constructor|].
      constructor; [done|]. eapply Forall_impl; [exact Hy|]. simpl. lia.
    + apply Z.leb_gt in E. constructor; [done|].
      rewrite (insertEpisode_perm x l). constructor; [lia | done].
Qed.

Lemma insertEpisode_filter (k : Z) x l :
  StronglySorted
    (fun a b => EpisodeSubtitles.episodeNumber a <= EpisodeSubtitles.episodeNumber b)
    l ->
  filter (fun e => EpisodeSubtitles.episodeNumber e = k) (insertEpisode x l)
  = filter (fun e => EpisodeSubtitles.episodeNumber e = k) (x :: l).
Proof.
  induction 1 as [|y l Hl IH Hy]; simpl; [done|].
  destruct (_ <=? _) eqn:E; [done|]. apply Z.leb_gt in E.
  rewrite (filter_cons _ y), IH, !filter_cons.
  destruct (decide (EpisodeSubtitles.episodeNumber y = k));
    destruct (decide (EpisodeSubtitles.episodeNumber x = k)); try done. lia.
Qed.

Lemma sortEpisodes_sorted l :
  StronglySorted
    (fun a b => EpisodeSubtitles.episodeNumber a <= EpisodeSubtitles.episodeNumber b)
    (sortEpisodes l).
Proof.
  induction l as [|x l IH]; simpl; [constructor | by apply insertEpisode_sorted].
Qed.

Lemma fold_entries_sum l (a : Z) :
  fold_left
    (fun sum ep => sum + Z.of_nat (length (EpisodeSubtitles.entries ep))) l a
  = a + Z.of_nat (length (concat (map EpisodeSubtitles.entries l))).
Proof.
  revert a. induction l as [|x l IH]; intros a; simpl; [lia|].
  rewrite IH, length_app. lia.
Qed.

(** X17.  The timeline lists the same episodes in ascending [episodeNumber]
    order, episodes with equal numbers in their original order, and
    [totalEntries] counts all their entries. *)
Theorem createSeasonTimeline_sorted episodes seriesName season language :
  let timeline := createSeasonTimeline episodes seriesName season language in
  StronglySorted
    (fun a b => EpisodeSubtitles.episodeNumber a <= EpisodeSubtitles.episodeNumber b)
    (SeasonSubtitles.episodes timeline)
  /\ SeasonSubtitles.episodes timeline ≡ₚ episodes
  /\ (forall k : Z,
        filter (fun e => EpisodeSubtitles.episodeNumber e = k)
          (SeasonSubtitles.episodes timeline)
        = filter (fun e => EpisodeSubtitles.episodeNumber e = k) episodes)
  /\ SeasonSubtitles.totalEntries timeline
     = Z.of_nat (length (concat (map EpisodeSubtitles.entries episodes))).
Proof.
  simpl. split; [apply sortEpisodes_sorted|]. split; [apply sortEpisodes_perm|].
  split.
  - intros k. induction episodes as [|x l IH]; simpl; [done|].
    rewrite insertEpisode_filter by apply sortEpisodes_sorted.
    by rewrite !filter_cons, IH.
  - rewrite fold_entries_sum, Z.add_0_l. f_equal.
    apply Permutation_length.
    assert (P : sortEpisodes episodes ≡ₚ episodes) by apply sortEpisodes_perm.
    induction P; simpl; try done.
    + by rewrite IHP.
    + rewrite !app_assoc. apply Permutation_app_tail, Permutation_app_comm.
    + by rewrite IHP1.
Qed.

End TimelineFacts.

(** The repository's test of the timeline. *)
Example createSeasonTimeline_test :
  let timeline :=
    createSeasonTimeline
      [ EpisodeSubtitles.mk "S01E02" 2 None [SubtitleEntry.mk "S01E02" 1 0 5 "Ep 2"];
        EpisodeSubtitles.mk "S01E01" 1 None [SubtitleEntry.mk "S01E01" 1 0 5 "Ep 1"] ]
      "Test Show" 1 "en-US" in
  map EpisodeSubtitles.episodeId (SeasonSubtitles.episodes timeline)
  = ["S01E01"; "S01E02"]
  /\ SeasonSubtitles.totalEntries timeline = 2.
Proof. split; reflexivity. Qed.

(** ** Narration subtitles *)

Section NarrativeFacts.
Local Open Scope Q_scope.

Lemma fold_pushChunk t chunks :
  forall st,
    fold_left (Narrative.pushChunk t) chunks st
    = Narrative.mkState
        (Narrative.entries st
         ++ chunkEntries t (Narrative.currentTime st) (Narrative.index st) chunks)
        (clockAfter t (Narrative.currentTime st) (length chunks))
        (Narrative.index st + Z.of_nat (length chunks))%Z.
Proof.
  induction chunks as [|c rest IH]; intros [es time idx]; simpl.
  - by rewrite app_nil_r, Z.add_0_r.
  - rewrite IH. simpl. rewrite <- app_assoc. simpl. f_equal. lia.
Qed.




Lemma chunkEntries_length t time idx chunks :
  length (chunkEntries t time idx chunks) = length chunks.
Proof.
  revert time idx. induction chunks as [|c rest IH]; intros time idx; simpl;
    [done | by rewrite IH].
Qed.


(** For a positive duration the step of the chunk loop is a positive
    integer, so the loop ends after at most [words.length] turns. *)
Lemma wordsPerSubtitle_positive (n : nat) (duration : Q) :
  (1 <= n)%nat -> 0 < duration ->
  (1 <= Qceiling (inject_Z (Z.of_nat n) / inject_Z (Qceiling (duration / 8))))%Z.
Proof.
  intros Hn Hd.
  assert (C : (1 <= Qceiling (duration / 8))%Z).
  { assert (A : (0 < Qceiling (duration / 8))%Z); [|lia].
    rewrite Zlt_Qlt. change (inject_Z 0) with 0.
    apply (Qlt_le_trans _ (duration / 8)); [|apply Qle_ceiling].
    assert (D : duration / 8 == duration * (1 # 8)) by reflexivity.
    rewrite D. lra. }
  assert (A : (0 < Qceiling (inject_Z (Z.of_nat n)
                             / inject_Z (Qceiling (duration / 8))))%Z); [|lia].
  rewrite Zlt_Qlt. change (inject_Z 0) with 0.
  eapply Qlt_le_trans; [|apply Qle_ceiling].
  apply Qlt_shift_div_l.
  - rewrite Zle_Qle in C. change (inject_Z 1) with 1 in C. lra.
  - assert (B : (1 <= Z.of_nat n)%Z) by lia.
    rewrite Zle_Qle in B. change (inject_Z 1) with 1 in B. lra.
Qed.

Lemma chunkWords_fuel step : (1 <= step)%nat ->
  forall fuel words,
    (length words <= fuel)%nat ->
    chunkWords (S fuel) step words = chunkWords fuel step words.
Proof.
  intros Hs. induction fuel as [|fuel IH]; intros words Hf.
  - destruct words; [done | simpl in Hf; lia].
  - destruct words as [|w words]; [done|].
    change (chunkWords (S (S fuel)) step (w :: words))
      with (join " " (take step (w :: words))
            :: chunkWords (S fuel) step (drop step (w :: words))).
    change (chunkWords (S fuel) step (w :: words))
      with (join " " (take step (w :: words))
            :: chunkWords fuel step (drop step (w :: words))).
    f_equal. apply IH. rewrite length_drop. simpl in *. lia.
Qed.




End NarrativeFacts.

(** The repository's test of the narration subtitles: the last entry ends at
    18 seconds. *)
Example generateNarrativeSubtitles_test :
  exists entries last,
    generateNarrativeSubtitles
      [ NarrativeBlock.mk "This is the first part of the narrative." 10;
        NarrativeBlock.mk "And this is the second part." 8 ] None
    = Some entries
    /\ List.last entries (RawSrtEntry.mk 0 0 0 EmptyString) = last
    /\ (RawSrtEntry.endTime last == 18)%Q
    /\ map RawSrtEntry.text entries
       = [ "This is the first"; "part of the narrative.";
           "And this is the second part." ].
Proof. eexists _, _. split; [by vm_compute|]. repeat split; by vm_compute. Qed.

Section NarrativeText.
Local Open Scope Q_scope.

Lemma split_nonempty sep s : JS.split sep s <> [].
Proof.
  pose proof (split_length sep s) as L. destruct (JS.split sep s); [done | done].
Qed.

Lemma join_cons sep a l :
  l <> [] -> join sep (a :: l) = a +:+ sep +:+ join sep l.
Proof. destruct l; [done | reflexivity]. Qed.

(** Joining what [split] returns gives the text back. *)
Lemma join_split sep s :
  join (String sep EmptyString) (JS.split sep s) = s.
Proof.
  induction s as [|c s IH]; simpl; [done|].
  pose proof (split_nonempty sep s) as N.
  destruct (Ascii.eqb c sep) eqn:E.
  - apply Ascii.eqb_eq in E as ->.
    rewrite join_cons by done. by rewrite IH.
  - destruct (JS.split sep s) as [|h t]; [done|].
    destruct t as [|h' t]; simpl in *; [by rewrite IH|].
    rewrite app_cons_s. by rewrite IH.
Qed.

Lemma join_app sep l1 l2 :
  l1 <> [] -> l2 <> [] ->
  join sep (l1 ++ l2) = join sep l1 +:+ sep +:+ join sep l2.
Proof.
  intros N1 N2. induction l1 as [|a l1 IH]; [done|].
  destruct l1 as [|b l1].
  - simpl app. by rewrite join_cons.
  - change ((a :: b :: l1) ++ l2) with (a :: ((b :: l1) ++ l2)).
    rewrite !join_cons by done. rewrite IH by done.
    by rewrite !app_assoc_s.
Qed.

Lemma chunkWords_join step : (1 <= step)%nat ->
  forall fuel words,
    (length words <= fuel)%nat ->
    join " " (chunkWords fuel step words) = join " " words
    /\ (words <> [] -> chunkWords fuel step words <> []).
Proof.
  intros Hs. induction fuel as [|fuel IH]; intros words Hf.
  - destruct words; [done | simpl in Hf; lia].
  - destruct words as [|w words]; [done|].
    split; [|done].
    change (chunkWords (S fuel) step (w :: words))
      with (join " " (take step (w :: words))
            :: chunkWords fuel step (drop step (w :: words))).
    destruct (IH (drop step (w :: words))) as [IH1 IH2].
    { rewrite length_drop. simpl in *. lia. }
    destruct (drop step (w :: words)) as [|d ds] eqn:D.
    + assert (T : take step (w :: words) = w :: words).
      { pose proof (take_drop step (w :: words)) as TD.
        rewrite D, app_nil_r in TD. exact TD. }
      rewrite T. assert (C0 : chunkWords fuel step [] = []) by (by destruct fuel).
      rewrite C0. done.
    + rewrite join_cons by (by apply IH2). rewrite IH1.
      pose proof (take_drop step (w :: words)) as TD. rewrite D in TD.
      rewrite <- TD at 2.
      rewrite join_app; [done| |done].
      destruct step; [lia | done].
Qed.

Lemma blockChunks_join block :
  0 <= NarrativeBlock.durationSeconds block ->
  exists chunks,
    blockChunks block = Some chunks /\ chunks <> []
    /\ join " " chunks = NarrativeBlock.text block.
Proof.
  intros Hd. unfold blockChunks.
  pose proof (split_nonempty " " (NarrativeBlock.text block)) as N.
  pose proof (join_split " " (NarrativeBlock.text block)) as J.
  destruct (Qle_bool _ 0) eqn:E.
  - apply Qle_bool_iff in E.
    assert (Z0 : Qeq_bool (NarrativeBlock.durationSeconds block) 0 = true)
      by (apply Qeq_bool_iff; lra).
    rewrite Z0. eexists. split; [done|]. split; [done|]. exact J.
  - assert (P : 0 < NarrativeBlock.durationSeconds block).
    { destruct (Qlt_le_dec 0 (NarrativeBlock.durationSeconds block)) as [H|H];
        [done|]. apply Qle_bool_iff in H. congruence. }
    eexists. split; [done|].
    pose proof (split_length " " (NarrativeBlock.text block)) as L.
    pose proof (wordsPerSubtitle_positive
                  (length (JS.split " " (NarrativeBlock.text block)))
                  _ ltac:(lia) P) as W.
    destruct (chunkWords_join
                (Z.to_nat
                   (Qceiling
                      (inject_Z (Z.of_nat (length (JS.split " " (NarrativeBlock.text block))))
                       / inject_Z (Qceiling (NarrativeBlock.durationSeconds block / 8)))))
                ltac:(lia)
                (length (JS.split " " (NarrativeBlock.text block)))
                (JS.split " " (NarrativeBlock.text block)) ltac:(lia)) as [C1 C2].
    split; [by apply C2|]. by rewrite C1.
Qed.

Lemma chunkEntries_text t chunks : forall time idx,
  map RawSrtEntry.text (chunkEntries t time idx chunks) = chunks.
Proof.
  induction chunks as [|c rest IH]; intros time idx; simpl; [done|].
  by rewrite IH.
Qed.

(** X19.  No word of the narration is lost: for blocks of non-negative
    duration, the entry texts joined by spaces are the block texts joined by
    spaces. *)
Theorem generateNarrativeSubtitles_text blocks (startOffset : option Q) :
  Forall (fun b => 0 <= NarrativeBlock.durationSeconds b) blocks ->
  exists entries,
    generateNarrativeSubtitles blocks startOffset = Some entries
    /\ join " " (map RawSrtEntry.text entries)
       = join " " (map NarrativeBlock.text blocks).
Proof.
  unfold generateNarrativeSubtitles, Narrative.run.
  set (start := default 0 startOffset). intros Hd.
  assert (G : exists st,
    fold_left Narrative.addBlock blocks
      (Some (Narrative.mkState [] start 1)) = Some st
    /\ (blocks <> [] -> Narrative.entries st <> [])
    /\ join " " (map RawSrtEntry.text (Narrative.entries st))
       = join " " (map NarrativeBlock.text blocks)).
  { induction blocks as [|b pre IH] using rev_ind.
    - eexists. split; [done|]. simpl. done.
    - apply Forall_app in Hd as [Hpre Hb]. apply Forall_cons in Hb as [Hb _].
      destruct (IH Hpre) as (st & E & N & J). clear IH.
      rewrite fold_left_app, E. simpl.
      destruct (blockChunks_join b Hb) as (chunks & -> & Hn & Hj).
      rewrite fold_pushChunk. eexists. split; [done|]. simpl.
      split.
      { intros _ H. apply app_eq_nil in H as [_ H].
        apply (f_equal length) in H. rewrite chunkEntries_length in H.
        destruct chunks; [done | discriminate H]. }
      rewrite !map_app, chunkEntries_text. simpl.
      destruct pre as [|p pre'].
      + simpl in E. injection E as <-. simpl. exact Hj.
      + assert (N1 : map RawSrtEntry.text (Narrative.entries st) <> []).
        { intros H. apply map_eq_nil in H. by apply N. }
        rewrite join_app by done.
        rewrite (join_app _ (map NarrativeBlock.text (p :: pre'))) by done.
        rewrite J. simpl join at 3. by rewrite Hj. }
  destruct G as (st & -> & _ & J). exists (Narrative.entries st). done.
Qed.

End NarrativeText.

(** ** Parsing subtitle files *)

Section ParserFacts.
Local Open Scope Q_scope.

Lemma srtTimeToSeconds_timestamp t :
  isTimestamp t = true ->
  srtTimeToSeconds t = Return (JS.Num (timestampValue t))
  /\ 0 <= timestampValue t.
Proof.
  intros Ht. split.
  - destruct (isTimestamp_inv t Ht)
      as (hh & mm & ss & fff & sep & -> & [Hh Lh] & [Hm Lm] & [Hs Ls] & [Hf Lf]
          & Hsep & ->).
    apply srtTimeToSeconds_fields; auto;
      try (intros ->; simpl in *; discriminate); lia.
  - destruct (isTimestamp_inv t Ht)
      as (hh & mm & ss & fff & sep & _ & [Hh _] & [Hm _] & [Hs _] & [Hf _]
          & _ & ->).
    destruct (digitsValue_shift hh Hh 0%Z) as [_ [A _]].
    destruct (digitsValue_shift mm Hm 0%Z) as [_ [B _]].
    destruct (digitsValue_shift ss Hs 0%Z) as [_ [C _]].
    destruct (digitsValue_shift fff Hf 0%Z) as [_ [D _]].
    rewrite Zle_Qle in A, B, C, D. change (inject_Z 0) with 0 in *.
    assert (E : inject_Z (decimal fff) / 1000
                == inject_Z (decimal fff) * (1 # 1000)) by reflexivity.
    rewrite E. lra.
Qed.

Lemma timestampGroup_sound s g r :
  In (g, r) (timestampGroup s) -> isTimestamp g = true.
Proof.
  unfold timestampGroup, digit, Regex.oneOf.
  repeat (rewrite in_bind;
          let c := fresh "c" in let r' := fresh "r" in
          let Hc := fresh "Hc" in
          intros (c & r' & [_ Hc]%in_charIf & H); revert H).
  intros [[= <- <-] | []].
  unfold isTimestamp. simpl.
  repeat match goal with
         | H : JS.isDigit _ = true |- _ => rewrite H; clear H
         | H : Ascii.eqb ":" _ = true |- _ =>
             apply Ascii.eqb_eq in H; subst
         end.
  simpl. match goal with H : _ || _ = true |- _ => by rewrite H end.
Qed.

Lemma timestampLinePattern_sound s g1 g2 r :
  In ((g1, g2), r) (timestampLinePattern s) ->
  isTimestamp g1 = true /\ isTimestamp g2 = true.
Proof.
  unfold timestampLinePattern. rewrite in_bind.
  intros (a & ? & Ha%timestampGroup_sound & H).
  apply in_bind in H as (? & ? & _ & H).
  apply in_bind in H as (? & ? & _ & H).
  apply in_bind in H as (? & ? & _ & H).
  apply in_bind in H as (b & ? & Hb%timestampGroup_sound & H).
  destruct H as [[= <- <- <-] | []]. done.
Qed.

Lemma parseBlock_parsed entries block :
  Forall timedEntry entries ->
  exists entries',
    parseBlock (Parsed entries) block = Parsed entries'
    /\ Forall timedEntry entries'.
Proof.
  intros He. unfold parseBlock.
  destruct (List.filter _ _) as [|indexLine [|timestampLine [|t textLines]]];
    try (by eexists).
  destruct (negb (truthy indexLine)); [by eexists|].
  destruct (parseInteger _) as [index|]; [|by eexists].
  destruct (negb (truthy timestampLine)); [by eexists|].
  destruct (Regex.search _ _) as [[g1 g2]|] eqn:S; [|by eexists].
  destruct (_ || _); [by eexists|].
  apply search_In in S as (s' & r & [H1 H2]%timestampLinePattern_sound).
  destruct (srtTimeToSeconds_timestamp g1 H1) as [-> P1].
  destruct (srtTimeToSeconds_timestamp g2 H2) as [-> P2].
  eexists. split; [done|].
  apply Forall_app. split; [done|]. constructor; [|constructor]. done.
Qed.

(** X20.  The parser never throws: [srtTimeToSeconds] is only called on text
    the timestamp pattern matched. Every entry it returns has non-negative
    times. *)
Theorem parseSrtContent_never_throws content :
  exists entries,
    parseSrtContent content = Parsed entries
    /\ Forall (fun e => 0 <= RawSrtEntry.startTime e
                        /\ 0 <= RawSrtEntry.endTime e) entries.
Proof.
  unfold parseSrtContent.
  generalize (List.filter (fun block => truthy (trim block))
                (Regex.split blankLines (replaceCR (replaceCRLF content)))).
  intros blocks.
  assert (G : forall entries, Forall timedEntry entries ->
            exists entries',
              fold_left parseBlock blocks (Parsed entries) = Parsed entries'
              /\ Forall timedEntry entries').
  { induction blocks as [|b blocks IH]; intros entries He.
    - by exists entries.
    - cbn [fold_left].
      destruct (parseBlock_parsed entries b He) as (e' & -> & He').
      by apply IH. }
  apply (G []). constructor.
Qed.

Lemma replaceCR_clean s : countChar CR (replaceCR s) = O.
Proof.
  induction s as [|c s IH]; simpl; [done|].
  destruct (Ascii.eqb c CR) eqn:E; simpl; [by rewrite IH|].
  by rewrite E, IH.
Qed.

Lemma replaceCR_id s : countChar CR s = O -> replaceCR s = s.
Proof.
  induction s as [|c s IH]; simpl; [done|].
  destruct (Ascii.eqb c CR); [done|]. simpl. intros H. by rewrite IH.
Qed.

Lemma replaceCRLF_id s : countChar CR s = O -> replaceCRLF s = s.
Proof.
  induction s as [|c s IH]; [done|].
  change (countChar CR (String c s))
    with ((if Ascii.eqb c CR then 1 else 0) + countChar CR s)%nat.
  destruct (Ascii.eqb c CR) eqn:E; [done|]. simpl Nat.add. intros H.
  destruct s as [|d s]; [done|].
  change (replaceCRLF (String c (String d s)))
    with (if Ascii.eqb c CR && Ascii.eqb d LF
          then String LF (replaceCRLF s)
          else String c (replaceCRLF (String d s))).
  rewrite E. simpl andb. cbv iota. by rewrite IH.
Qed.

(** X21.  Line endings do not matter: a file with CR LF or CR line endings
    parses as the same file with LF line endings. *)
Theorem parseSrtContent_line_endings content :
  parseSrtContent content = parseSrtContent (replaceCR (replaceCRLF content)).
Proof.
  unfold parseSrtContent.
  pose proof (replaceCR_clean (replaceCRLF content)) as C.
  by rewrite (replaceCRLF_id _ C), (replaceCR_id _ C).
Qed.

End ParserFacts.

(** The repository's tests of the parser: two blocks, a multi-line text,
    Windows line endings, a malformed block between two good ones. *)
Example parseSrtContent_tests :
  let nl := String LF EmptyString in
  let crlf := String CR (String LF EmptyString) in
  parseSrtContent
    ("1" +:+ nl +:+ "00:00:01,000 --> 00:00:04,000" +:+ nl +:+ "Line one"
     +:+ nl +:+ "Line two")
  = Parsed [RawSrtEntry.mk 1 1.000 4.000 ("Line one" +:+ nl +:+ "Line two")]
  /\ parseSrtContent
       ("1" +:+ crlf +:+ "00:00:01,000 --> 00:00:04,000" +:+ crlf +:+ "Hello"
        +:+ crlf +:+ crlf)
     = Parsed [RawSrtEntry.mk 1 1.000 4.000 "Hello"]
  /\ parseSrtContent
       ("1" +:+ nl +:+ "00:00:01,000 --> 00:00:04,000" +:+ nl +:+ "Hello"
        +:+ nl +:+ nl +:+ "invalid block" +:+ nl +:+ nl
        +:+ "2" +:+ nl +:+ "00:00:05,000 --> 00:00:08,000" +:+ nl +:+ "World")
     = Parsed [ RawSrtEntry.mk 1 1.000 4.000 "Hello";
                RawSrtEntry.mk 2 5.000 8.000 "World" ].
Proof. repeat split; by vm_compute. Qed.

(** ** The round trip through a subtitle file *)

Section FileRoundTrip.

Ltac unapp := rewrite ?app_nil_s, ?app_cons_s; simpl.

Lemma list_of_string_of l : list_ascii_of_string (string_of_list_ascii l) = l.
Proof. induction l as [|c l IH]; simpl; [done | by rewrite IH]. Qed.












Ltac use_digits :=
  repeat match goal with
         | H : JS.isDigit ?c = true |- context [JS.isDigit ?c] => rewrite H
         end.






(** *** Splitting the generated file into its blocks *)











(** *** The timestamps of the generated file *)


(** *** Reading one generated block *)






(** *** Reading the generated file *)






End FileRoundTrip.

(** ** The season text for the language model *)

Section SeasonText.

Lemma entryLine_truthy entry : truthy (entryLine entry) = true.
Proof. unfold entryLine. by rewrite app_cons_s. Qed.

Lemma join_lines_truthy entries :
  entries <> [] ->
  truthy (join (String LF EmptyString) (map entryLine entries)) = true.
Proof.
  destruct entries as [|e entries]; [done|]. intros _. simpl.
  destruct (map entryLine entries); [apply entryLine_truthy|].
  unfold entryLine. by rewrite !app_cons_s.
Qed.

Lemma join_lines_snoc pre entry :
  join (String LF EmptyString) (map entryLine pre)
  +:+ (if truthy (join (String LF EmptyString) (map entryLine pre))
       then String LF EmptyString else EmptyString)
  +:+ entryLine entry
  = join (String LF EmptyString) (map entryLine (pre ++ [entry])).
Proof.
  destruct pre as [|e pre]; [by rewrite !app_nil_s|].
  rewrite join_lines_truthy by done.
  rewrite map_app, join_app; [done| |done]. done.
Qed.

(** The loop from the text of the entries [pre] already taken. *)
Lemma episodeTextFrom_prefix limit : forall entries pre,
  let lines l := join (String LF EmptyString) (map entryLine l) in
  episodeTextFrom limit (lines pre) entries = lines (pre ++ entries)
  \/ exists kept entry rest,
       entries = kept ++ entry :: rest
       /\ episodeTextFrom limit (lines pre) entries
          = lines (pre ++ kept) +:+ truncationMarker
       /\ overLimit limit
            (String.length (lines (pre ++ kept))
             + String.length (entryLine entry)) = true.
Proof.
  induction entries as [|e entries IH]; intros pre lines.
  { left. simpl. by rewrite app_nil_r. }
  cbn [episodeTextFrom].
  destruct (overLimit limit _) eqn:E.
  - right. exists [], e, entries. by rewrite app_nil_r.
  - subst lines. cbv beta. rewrite join_lines_snoc.
    destruct (IH (pre ++ [e])) as [H | (kept & e' & rest & -> & H & Ho)].
    + left. by rewrite H, <- app_assoc.
    + right. exists (e :: kept), e', rest. rewrite H.
      by rewrite <- !app_assoc in *.
Qed.


(** X24.  Without a limit, and with the limit 0, nothing is truncated. *)
Theorem episodeText_unlimited limit entries :
  limit = None \/ limit = Some 0%Q ->
  episodeText limit entries
  = join (String LF EmptyString) (map entryLine entries).
Proof.
  intros Hl.
  destruct (episodeTextFrom_prefix limit entries [])
    as [H | (kept & e & rest & _ & _ & Ho)]; [exact H|].
  destruct Hl as [-> | ->]; discriminate Ho.
Qed.

Lemma overLimit_false limit n :
  overLimit (Some limit) n = false -> (0 < limit)%Q ->
  (inject_Z (Z.of_nat n) <= limit)%Q.
Proof.
  unfold overLimit. intros H Hpos.
  destruct (Qeq_bool limit 0) eqn:E.
  - apply Qeq_bool_iff in E. rewrite E in Hpos. by apply Qlt_irrefl in Hpos.
  - simpl in H. apply negb_false_iff in H. by apply Qle_bool_iff in H.
Qed.

Lemma episodeTextFrom_bound limit : (0 < limit)%Q ->
  forall entries text,
    (inject_Z (Z.of_nat (String.length text)) <= limit + 1)%Q ->
    (inject_Z (Z.of_nat (String.length (episodeTextFrom (Some limit) text entries)))
     <= limit + 19)%Q.
Proof.
  intros Hpos. induction entries as [|e entries IH]; intros text Ht.
  { simpl. lra. }
  cbn [episodeTextFrom].
  destruct (overLimit (Some limit) _) eqn:E.
  - rewrite length_app_s. change (String.length truncationMarker) with 18%nat.
    rewrite Nat2Z.inj_add, inject_Z_plus.
    change (inject_Z (Z.of_nat 18)) with 18%Q. lra.
  - apply IH. apply overLimit_false in E; [|done].
    rewrite !length_app_s.
    assert (L : (String.length (if truthy text then String LF EmptyString
                                else EmptyString) <= 1)%nat)
      by (destruct (truthy text); simpl; lia).
    revert E L. generalize (String.length (entryLine e)).
    generalize (String.length (if truthy text then String LF EmptyString
                               else EmptyString)).
    generalize (String.length text). clear. intros a b c E L.
    rewrite !Nat2Z.inj_add, !inject_Z_plus in *.
    assert (B : (inject_Z (Z.of_nat b) <= 1)%Q).
    { change 1%Q with (inject_Z 1). rewrite <- Zle_Qle. lia. }
    lra.
Qed.

(** X25.  With a positive limit, the text of an episode is at most the limit
    plus 19 characters long: the line feed before an entry is not counted
    against the limit, and the truncation marker takes 18 characters. *)
Theorem episodeText_bound limit entries :
  (0 < limit)%Q ->
  (inject_Z (Z.of_nat (String.length (episodeText (Some limit) entries)))
   <= limit + 19)%Q.
Proof.
  intros Hpos. apply episodeTextFrom_bound; [done|]. simpl.
  change (inject_Z (Z.of_nat 0)) with 0%Q. lra.
Qed.

End SeasonText.

(** ** The speech markup helpers *)

Section MarkupFacts.

Lemma replaceAll_app pattern replacement a b :
  replaceAll pattern replacement (a +:+ b)
  = replaceAll pattern replacement a +:+ replaceAll pattern replacement b.
Proof.
  induction a as [|c a IH]; [by rewrite !app_nil_s|].
  rewrite app_cons_s. simpl. destruct (Ascii.eqb c pattern).
  - by rewrite IH, app_assoc_s.
  - by rewrite IH, app_cons_s.
Qed.

Lemma replaceAll_without pattern replacement s :
  countChar pattern s = O -> replaceAll pattern replacement s = s.
Proof.
  induction s as [|c s IH]; [done|]. simpl.
  destruct (Ascii.eqb c pattern); [done|]. intros H. by rewrite IH.
Qed.

Lemma countChar_replaceAll_self pattern replacement s :
  countChar pattern replacement = O ->
  countChar pattern (replaceAll pattern replacement s) = O.
Proof.
  intros Hr. induction s as [|c s IH]; [done|]. simpl.
  destruct (Ascii.eqb c pattern) eqn:E.
  - by rewrite countChar_app, Hr, IH.
  - simpl. by rewrite E, IH.
Qed.

Lemma countChar_replaceAll_other c pattern replacement s :
  countChar c replacement = O -> countChar c s = O ->
  countChar c (replaceAll pattern replacement s) = O.
Proof.
  intros Hr. induction s as [|x s IH]; [done|]. simpl.
  destruct (Ascii.eqb x c) eqn:Ec; [done|]. intros Hs.
  destruct (Ascii.eqb x pattern).
  - by rewrite countChar_app, Hr, IH.
  - simpl. by rewrite Ec, IH.
Qed.

(** X26.  The escaped text has none of the characters '<', '>', the double
    quote and the apostrophe. *)
Theorem escapeXml_no_markup text :
  countChar "<" (escapeXml text) = O
  /\ countChar ">" (escapeXml text) = O
  /\ countChar doubleQuote (escapeXml text) = O
  /\ countChar "'" (escapeXml text) = O.
Proof.
  unfold escapeXml. repeat split.
  - do 3 (apply countChar_replaceAll_other; [reflexivity|]).
    apply countChar_replaceAll_self; reflexivity.
  - do 2 (apply countChar_replaceAll_other; [reflexivity|]).
    apply countChar_replaceAll_self; reflexivity.
  - apply countChar_replaceAll_other; [reflexivity|].
    apply countChar_replaceAll_self; reflexivity.
  - apply countChar_replaceAll_self; reflexivity.
Qed.

Lemma escapeXml_app a b : escapeXml (a +:+ b) = escapeXml a +:+ escapeXml b.
Proof. unfold escapeXml. by rewrite !replaceAll_app. Qed.

(** X27.  A text without the five special characters is left unchanged. *)
Theorem escapeXml_plain text : plainText text -> escapeXml text = text.
Proof.
  intros (H1 & H2 & H3 & H4 & H5). unfold escapeXml.
  rewrite (replaceAll_without "&") by done.
  rewrite (replaceAll_without "<") by done.
  rewrite (replaceAll_without ">") by done.
  rewrite (replaceAll_without doubleQuote) by done.
  by rewrite (replaceAll_without "'").
Qed.

Lemma languagePattern_sound voice code rest :
  In (code, rest) (languagePattern voice) ->
  isLanguageCode code = true /\ voice = code +:+ rest.
Proof.
  unfold languagePattern.
  rewrite in_bind. intros (a & r1 & [-> Ha]%in_charIf & H).
  apply in_bind in H as (b & r2 & [-> Hb]%in_charIf & H).
  apply in_bind in H as (h & r3 & [-> Hh]%in_charIf & H).
  apply in_bind in H as (c & r4 & [-> Hc]%in_charIf & H).
  apply in_bind in H as (d & r5 & [-> Hd]%in_charIf & H).
  destruct H as [[= <- <-] | []].
  apply Ascii.eqb_eq in Hh as <-.
  unfold isLanguageCode. simpl. rewrite Ha, Hb, Hc, Hd.
  by rewrite !app_cons_s, app_nil_s.
Qed.

(** X28.  The language is always a code of the form ll-CC: the first five
    characters of the voice name when they have that form, else en-US. *)
Theorem getLanguageFromVoice_code voice :
  isLanguageCode (getLanguageFromVoice voice) = true
  /\ (forall code rest,
        isLanguageCode code = true -> voice = code +:+ rest ->
        getLanguageFromVoice voice = code)
  /\ ((forall code rest, isLanguageCode code = true -> voice <> code +:+ rest) ->
      getLanguageFromVoice voice = "en-US").
Proof.
  split; [|split].
  - unfold getLanguageFromVoice.
    destruct (languagePattern voice) as [|[code rest] l] eqn:E; [done|].
    apply (languagePattern_sound voice code rest). rewrite E. by left.
  - intros code rest Hc ->. unfold isLanguageCode in Hc.
    destruct code as [|a [|b [|h [|c [|d [|]]]]]]; try discriminate Hc.
    simpl in Hc. rewrite !andb_true_iff, Ascii.eqb_eq in Hc.
    destruct Hc as ((((Ha & Hb) & ->) & Hc) & Hd).
    rewrite !app_cons_s, app_nil_s.
    unfold getLanguageFromVoice, languagePattern, Regex.bind, Regex.charIf,
      Regex.ret.
    simpl. rewrite Ha. simpl. rewrite Hb. simpl. rewrite Hc. simpl.
    by rewrite Hd.
  - intros Hno. unfold getLanguageFromVoice.
    destruct (languagePattern voice) as [|[code rest] l] eqn:E; [done|].
    destruct (languagePattern_sound voice code rest) as [Hc Hv];
      [rewrite E; by left|].
    by destruct (Hno code rest Hc).
Qed.

End MarkupFacts.

(** ** The narration subtitles of the pipeline *)

Section NarrationSrt.
Local Open Scope Q_scope.




End NarrationSrt.

(** ** The properties on concrete inputs *)

Lemma remap_missing_episode_witness :
  remapSubtitlesToClips (testClips ++ [missingClip]) testSubtitles
  = remapSubtitlesToClips testClips testSubtitles
  /\ Remap.currentOffset (Remap.run (testClips ++ [missingClip]) testSubtitles)
     = (Remap.currentOffset (Remap.run testClips testSubtitles)
        + (ClipDefinition.endTime missingClip
           - ClipDefinition.startTime missingClip))%Q
  /\ Remap.index (Remap.run (testClips ++ [missingClip]) testSubtitles)
     = Remap.index (Remap.run testClips testSubtitles).
Proof.
  apply (remap_missing_episode testSubtitles testClips missingClip).
  reflexivity.
Defined.

Lemma remap_provenance_witness :
  exists clip entries entry,
    clip ∈ testClips
    /\ ClipDefinition.episodeId clip
       = RemappedSubtitle.originalEpisodeId firstRemapped
    /\ testSubtitles !! RemappedSubtitle.originalEpisodeId firstRemapped
       = Some entries
    /\ entry ∈ entries
    /\ (ClipDefinition.startTime clip <= SubtitleEntry.startTime entry)%Q
    /\ (SubtitleEntry.endTime entry <= ClipDefinition.endTime clip)%Q
    /\ RemappedSubtitle.text firstRemapped = SubtitleEntry.text entry
    /\ RemappedSubtitle.originalStartTime firstRemapped
       = SubtitleEntry.startTime entry.
Proof.
  apply (remap_provenance testSubtitles testClips firstRemapped).
  apply list_elem_of_In. vm_compute. left. reflexivity.
Defined.


Lemma contained_entries_overlap_witness :
  subOne ∈ findOverlappingSubtitles (Remap.entriesOf testSubtitles clipE01)
             (ClipDefinition.startTime clipE01) (ClipDefinition.endTime clipE01)
             (Some (1 # 2)%Q).
Proof.
  apply (contained_entries_overlap testSubtitles clipE01 (1 # 2)%Q subOne).
  - by vm_compute.
  - by vm_compute.
  - apply list_elem_of_In. vm_compute. left. reflexivity.
Defined.

Lemma overlap_excludes_witness :
  (instantEntry ∉ findOverlappingSubtitles [subOne; instantEntry] 10 20 None)
  /\ (subOne ∉ findOverlappingSubtitles [subOne; instantEntry] 15 20 None).
Proof.
  split.
  - apply (proj1 (overlap_excludes [subOne; instantEntry] 10 20 None
                    instantEntry)).
    reflexivity.
  - apply (proj2 (overlap_excludes [subOne; instantEntry] 15 20 None subOne)).
    + by vm_compute.
    + left. by vm_compute.
Defined.

Lemma formatTimeMarker_fields_witness :
  exists mm ss,
    formatTimeMarker 125 = mm +:+ String ":" ss
    /\ allDigits mm = true /\ allDigits ss = true
    /\ (2 <= String.length mm)%nat /\ String.length ss = 2%nat
    /\ 0 <= decimal ss < 60
    /\ 60 * decimal mm + decimal ss = Qfloor 125.
Proof. apply (formatTimeMarker_fields 125). by vm_compute. Defined.

Lemma timestamp_text_round_trip_witness :
  srtTimeToSeconds "01:23:45.678"
  = Return (JS.Num (timestampValue "01:23:45.678"))
  /\ secondsToSrtTime (timestampValue "01:23:45.678")
     = JS.replaceFirst "." "," "01:23:45.678".
Proof.
  apply (timestamp_text_round_trip "01:23:45.678"); reflexivity.
Defined.



Lemma extractEpisodeId_canonical_witness :
  extractEpisodeIdFromFilename "S01E05" = Some "S01E05".
Proof. apply (extractEpisodeId_canonical "S01E05"). reflexivity. Defined.

Lemma extractEpisodeId_shape_witness : isEpisodeId "S01E07" = true.
Proof.
  apply (extractEpisodeId_shape "show.1x07.mkv" "S01E07"). reflexivity.
Defined.

Lemma splitTextIntoChunks_bounded_witness :
  Forall (fun chunk => (String.length chunk <= MAX_CHARS_PER_CHUNK)%nat)
    (splitTextIntoChunks commaNarration).
Proof.
  apply (splitTextIntoChunks_bounded commaNarration).
  intros sentence Hs _ part Hp.
  assert (F : forallb
                (fun s =>
                   forallb (fun p => Nat.leb (String.length p) MAX_CHARS_PER_CHUNK)
                     (Regex.split afterComma s))
                (Regex.split sentenceBoundary commaNarration) = true)
    by (vm_compute; reflexivity).
  rewrite forallb_forall in F. apply list_elem_of_In in Hs, Hp.
  specialize (F _ Hs). rewrite forallb_forall in F.
  apply Nat.leb_le, (F _ Hp).
Defined.

Lemma openai_splitTextIntoChunks_bounded_witness :
  Forall (fun chunk =>
            (String.length chunk <= OpenAISpeech.MAX_CHARS_PER_CHUNK)%nat)
    (OpenAISpeech.splitTextIntoChunks longCommaNarration).
Proof.
  apply (openai_splitTextIntoChunks_bounded longCommaNarration).
  intros sentence Hs _ part Hp.
  assert (F : forallb
                (fun s =>
                   forallb
                     (fun p =>
                        Nat.leb (String.length p) OpenAISpeech.MAX_CHARS_PER_CHUNK)
                     (Regex.split afterComma s))
                (Regex.split sentenceBoundary longCommaNarration) = true)
    by (vm_compute; reflexivity).
  rewrite forallb_forall in F. apply list_elem_of_In in Hs, Hp.
  specialize (F _ Hs). rewrite forallb_forall in F.
  apply Nat.leb_le, (F _ Hp).
Defined.

Lemma overall_progress_monotone_witness :
  (calculateOverallProgress runningJob <= calculateOverallProgress laterJob)%Q.
Proof.
  apply (overall_progress_monotone runningJob laterJob 3 6).
  - reflexivity.
  - reflexivity.
  - reflexivity.
  - by vm_compute.
  - by vm_compute.
  - left. lia.
Defined.

Lemma overall_progress_range_witness :
  (0 <= calculateOverallProgress runningJob <= 100)%Q.
Proof. apply (overall_progress_range runningJob). by vm_compute. Defined.

Lemma testBlocks_nonneg :
  Forall (fun b => (0 <= NarrativeBlock.durationSeconds b)%Q) testBlocks.
Proof. repeat constructor; by vm_compute. Qed.


Lemma generateNarrativeSubtitles_text_witness :
  exists entries,
    generateNarrativeSubtitles testBlocks None = Some entries
    /\ join " " (map RawSrtEntry.text entries)
       = join " " (map NarrativeBlock.text testBlocks).
Proof.
  apply (generateNarrativeSubtitles_text testBlocks None testBlocks_nonneg).
Defined.



Lemma episodeText_unlimited_witness :
  episodeText (Some 0%Q) episodeOneEntries
  = join (String LF EmptyString) (map entryLine episodeOneEntries).
Proof.
  apply (episodeText_unlimited (Some 0%Q) episodeOneEntries).
  right. reflexivity.
Defined.

Lemma episodeText_bound_witness :
  (inject_Z (Z.of_nat (String.length (episodeText (Some 20%Q) episodeOneEntries)))
   <= 20 + 19)%Q.
Proof. apply (episodeText_bound 20 episodeOneEntries). by vm_compute. Defined.

Lemma escapeXml_plain_witness : escapeXml "Hello world" = "Hello world".
Proof.
  apply (escapeXml_plain "Hello world"). repeat split; reflexivity.
Defined.

Lemma getLanguageFromVoice_code_witness :
  getLanguageFromVoice "es-ES-ElviraNeural" = "es-ES"
  /\ isLanguageCode (getLanguageFromVoice "Elvira") = true.
Proof.
  split.
  - apply (proj1 (proj2 (getLanguageFromVoice_code "es-ES-ElviraNeural"))
             "es-ES" "-ElviraNeural"); reflexivity.
  - apply (proj1 (getLanguageFromVoice_code "Elvira")).
Defined.


